(** * Snake game engine: a shallow embedding of the TypeScript core

    The development follows the repository's classes one module at a time:
    [Position], [Snake], [Food], [GameBoard], [Storage], [ScoreManager] and
    [GameEngine], and the functions of the game configuration.  Methods are written in a small state-and-exception monad
    [JS] so that the order of field updates, the places where a [TypeError]
    is raised, and the calls to [Math.random] and [performance.now] are the
    ones of the source.

    Numbers: grid coordinates, lengths and scores are JavaScript integers and
    are modelled in [Z]; time stamps, the game speed, the special-food chance
    and the results of [Math.random] are modelled in [Q], with the product
    [Math.random() * n] taken exactly. *)

From Stdlib Require Import QArith Qround Ascii.
From stdpp Require Import gmap strings pretty list.

Close Scope Q_scope.
Open Scope Z_scope.

(** ** Enumerations of [game.types] *)

Inductive Direction := UP | DOWN | LEFT | RIGHT.
Inductive GameState := MENU | PLAYING | PAUSED | GAME_OVER | SETTINGS.
Inductive FoodType := REGULAR | SPECIAL.

Global Instance Direction_eq_dec : EqDecision Direction.
Proof. solve_decision. Defined.
Global Instance GameState_eq_dec : EqDecision GameState.
Proof. solve_decision. Defined.
Global Instance FoodType_eq_dec : EqDecision FoodType.
Proof. solve_decision. Defined.

(** [GameConfig]; the four colour strings play no part in the engine and are
    left out. *)
Record GameConfig := mkConfig {
  gridSize : Z;
  gameSpeed : Q;
  initialSnakeLength : Z;
  specialFoodSpawnChance : Q;
}.

(** ** Position *)

Record Position := mkPosition { x : Z; y : Z }.

Global Instance Position_eq_dec : EqDecision Position.
Proof. solve_decision. Defined.

Module Position.
(** [equals]: coordinate-wise strict equality. *)
Definition equals (this other : Position) : bool :=
  bool_decide (x this = x other) && bool_decide (y this = y other).

Definition add (this offset : Position) : Position :=
  mkPosition (x this + x offset) (y this + y offset).

Definition subtract (this offset : Position) : Position :=
  mkPosition (x this - x offset) (y this - y offset).

Definition isWithinBounds (this : Position) (minX minY maxX maxY : Z) : bool :=
  bool_decide (x this >= minX) && bool_decide (x this < maxX)
  && bool_decide (y this >= minY) && bool_decide (y this < maxY).

Definition clone (this : Position) : Position := mkPosition (x this) (y this).
End Position.

Record SnakeSegment := mkSegment { position : Position; isHead : bool }.

Global Instance SnakeSegment_eq_dec : EqDecision SnakeSegment.
Proof. solve_decision. Defined.

(** ** The outside world

    [Math.random] returns a number in the half-open unit interval; the type
    [UnitInterval] carries that contract. *)

Definition in_unit_interval (q : Q) : bool :=
  Qle_bool 0 q && negb (Qle_bool 1 q).

Record UnitInterval := mkUnit {
  unit_value : Q;
  unit_value_ok : in_unit_interval unit_value = true;
}.

(** Values kept in [localStorage] by the score manager (their JSON text is
    not modelled). *)
Inductive Stored :=
  | StoredNumber (n : Z)
  | StoredStats (highScore : Z) (lastPlayed : string) (totalGames : Z).

Record ScoreData := mkScoreData {
  sd_currentScore : Z;
  sd_highScore : Z;
  sd_snakeLength : Z;
  sd_foodEaten : Z;
  sd_gameTime : Z;
}.

Record Food := mkFood {
  food_position : option Position;   (* [None] is JavaScript's undefined *)
  food_type : FoodType;
  food_points : Z;
}.

(** Notifications of [GameEvents] sent through the event emitter. *)
Inductive Event :=
  | game_start (config : GameConfig)
  | game_pause (timestamp : Q)
  | game_resume (timestamp : Q)
  | game_over (score : ScoreData)
  | game_reset (timestamp : Q)
  | snake_move (pos : Position)
  | snake_direction_change (direction : Direction)
  | food_eaten (food : Food) (score : Z)
  | food_spawn (food : Food)
  | score_update (score : ScoreData).

(** Everything the engine reaches that is not one of its own fields: the
    random source, the clock, the date, the animation-frame scheduler, the
    browser's [localStorage] and the listeners of the event emitter (kept as
    the list of notifications sent, oldest first). *)
Record World := mkWorld {
  randoms : nat -> UnitInterval;
  randoms_used : nat;
  clock : nat -> Q;
  clock_used : nat;
  dates : nat -> string;
  dates_used : nat;
  frame_ids : nat -> Z;
  frames_requested : nat;
  frames_pending : list Z;
  localStorage : gmap string Stored;
  storage_available : bool;
  emitted : list Event;
}.

(** ** The monad of method bodies *)

Inductive Exn := TypeError | Error (msg : string).

Inductive Completion (A : Type) :=
  | Normal (a : A)
  | Throw (e : Exn).
Arguments Normal {A} a.
Arguments Throw {A} e.

(** A method of an object with state [S]: it reads and updates the object
    and the world, and completes normally or abruptly; the updates made
    before a throw stay. *)
Definition JS (S A : Type) : Type := S -> World -> Completion A * S * World.

Definition ret {S A} (a : A) : JS S A := fun s w => (Normal a, s, w).

Definition bind {S A B} (m : JS S A) (k : A -> JS S B) : JS S B :=
  fun s w =>
    match m s w with
    | (Normal a, s', w') => k a s' w'
    | (Throw e, s', w') => (Throw e, s', w')
    end.

Definition throw {S A} (e : Exn) : JS S A := fun s w => (Throw e, s, w).
Definition this {S} : JS S S := fun s w => (Normal s, s, w).
Definition assign {S} (f : S -> S) : JS S unit := fun s w => (Normal tt, f s, w).
Definition world_read {S A} (f : World -> A) : JS S A :=
  fun s w => (Normal (f w), s, w).
Definition world_update {S} (f : World -> World) : JS S unit :=
  fun s w => (Normal tt, s, f w).

(** Run a method of a field of the object. *)
Definition on_field {S T A} (get : S -> T) (set : T -> S -> S) (m : JS T A)
  : JS S A :=
  fun s w => let '(c, t', w') := m (get s) w in (c, set t' s, w').

Declare Scope js_scope.
Delimit Scope js_scope with js.
Notation "'let!' v ':=' m 'in' k" := (bind m (fun v => k))
  (at level 10, v name, m at level 100, k at level 200) : js_scope.
Notation "m ;;; k" := (bind m (fun _ => k))
  (at level 100, k at level 200, right associativity) : js_scope.
Open Scope js_scope.

Definition completion_of {A S} (r : Completion A * S * World) : Completion A :=
  r.1.1.
Definition state_of {A S} (r : Completion A * S * World) : S := r.1.2.
Definition world_of {A S} (r : Completion A * S * World) : World := r.2.

(** *** Globals *)

Definition set_randoms_used n w :=
  mkWorld (randoms w) n (clock w) (clock_used w) (dates w) (dates_used w)
    (frame_ids w) (frames_requested w) (frames_pending w) (localStorage w)
    (storage_available w) (emitted w).
Definition set_clock_used n w :=
  mkWorld (randoms w) (randoms_used w) (clock w) n (dates w) (dates_used w)
    (frame_ids w) (frames_requested w) (frames_pending w) (localStorage w)
    (storage_available w) (emitted w).
Definition set_dates_used n w :=
  mkWorld (randoms w) (randoms_used w) (clock w) (clock_used w) (dates w) n
    (frame_ids w) (frames_requested w) (frames_pending w) (localStorage w)
    (storage_available w) (emitted w).
Definition set_frames n l w :=
  mkWorld (randoms w) (randoms_used w) (clock w) (clock_used w) (dates w)
    (dates_used w) (frame_ids w) n l (localStorage w)
    (storage_available w) (emitted w).
Definition set_localStorage m w :=
  mkWorld (randoms w) (randoms_used w) (clock w) (clock_used w) (dates w)
    (dates_used w) (frame_ids w) (frames_requested w) (frames_pending w) m
    (storage_available w) (emitted w).
Definition set_emitted l w :=
  mkWorld (randoms w) (randoms_used w) (clock w) (clock_used w) (dates w)
    (dates_used w) (frame_ids w) (frames_requested w) (frames_pending w)
    (localStorage w) (storage_available w) l.

(** [Math.random()] *)
Definition Math_random {S} : JS S UnitInterval :=
  fun s w => (Normal (randoms w (randoms_used w)), s,
              set_randoms_used (Datatypes.S (randoms_used w)) w).

(** [performance.now()] *)
Definition performance_now {S} : JS S Q :=
  fun s w => (Normal (clock w (clock_used w)), s,
              set_clock_used (Datatypes.S (clock_used w)) w).

(** [new Date().toISOString()] *)
Definition Date_toISOString {S} : JS S string :=
  fun s w => (Normal (dates w (dates_used w)), s,
              set_dates_used (Datatypes.S (dates_used w)) w).

(** [requestAnimationFrame(cb)]: the handle comes from the browser and the
    callback waits in [frames_pending]. *)
Definition requestAnimationFrame {S} : JS S Z :=
  fun s w => let id := frame_ids w (frames_requested w) in
    (Normal id, s,
     set_frames (Datatypes.S (frames_requested w)) (frames_pending w ++ [id]) w).

(** [cancelAnimationFrame(id)] *)
Definition cancelAnimationFrame {S} (id : Z) : JS S unit :=
  world_update (fun w =>
    set_frames (frames_requested w) (filter (fun i => i ≠ id) (frames_pending w)) w).

(** [eventEmitter.emit(...)]: the emitter runs every listener inside a
    try/catch, so [emit] itself never throws; the listeners of this
    repository only read the engine. *)
Definition emit {S} (ev : Event) : JS S unit :=
  world_update (fun w => set_emitted (emitted w ++ [ev]) w).

(** [Math.floor(r * n)] for a random [r] and an array length [n]. *)
Definition random_index (r : UnitInterval) (n : nat) : Z :=
  Qfloor (unit_value r * inject_Z (Z.of_nat n)).

(** [array[i]] for a number [i]: undefined outside the array. *)
Definition js_index {A} (l : list A) (i : Z) : option A :=
  if decide (0 <= i) then l !! Z.to_nat i else None.

(** [new T(...)]: the constructor body runs on the freshly initialised
    fields; the creator gets the object. *)
Definition construct {S T} (fields : T) (body : JS T unit) : JS S T :=
  fun s w =>
    match body fields w with
    | (Normal _, t, w') => (Normal t, s, w')
    | (Throw e, _, w') => (Throw e, s, w')
    end.

(** ** Snake (entities/snake) *)

Record Snake := mkSnake {
  snake_config : GameConfig;
  segments : list SnakeSegment;
  direction : Direction;
  nextDirection : Direction;
}.

Module Snake.
Definition set_segments (l : list SnakeSegment) (s : Snake) : Snake :=
  mkSnake (snake_config s) l (direction s) (nextDirection s).
Definition set_direction (d : Direction) (s : Snake) : Snake :=
  mkSnake (snake_config s) (segments s) d (nextDirection s).
Definition set_nextDirection (d : Direction) (s : Snake) : Snake :=
  mkSnake (snake_config s) (segments s) (direction s) d.

(** The loop pushes one segment for each [i] from 0 while
    [i < initialSnakeLength]. *)
Definition initializeSnake : JS Snake unit :=
  assign (set_segments []) ;;;
  let! s := this in
  let centerX := gridSize (snake_config s) `div` 2 in
  let centerY := gridSize (snake_config s) `div` 2 in
  assign (set_segments
    ((fun i => mkSegment (mkPosition (centerX - i) centerY) (bool_decide (i = 0)))
       <$> seqZ 0 (initialSnakeLength (snake_config s)))).

Definition new {S} (config : GameConfig) : JS S Snake :=
  construct (mkSnake config [] RIGHT RIGHT) initializeSnake.

Definition calculateNewHeadPosition (s : Snake) (currentPosition : Position)
  : Position :=
  match direction s with
  | UP => mkPosition (x currentPosition) (y currentPosition - 1)
  | DOWN => mkPosition (x currentPosition) (y currentPosition + 1)
  | LEFT => mkPosition (x currentPosition - 1) (y currentPosition)
  | RIGHT => mkPosition (x currentPosition + 1) (y currentPosition)
  end.

Definition move : JS Snake unit :=
  assign (fun s => set_direction (nextDirection s) s) ;;;
  let! s := this in
  match segments s !! 0%nat with
  | None => throw TypeError            (* [head.position] of undefined *)
  | Some head =>
    let newHeadPosition := calculateNewHeadPosition s (position head) in
    (* unshift the new head *)
    assign (fun s => set_segments (mkSegment newHeadPosition true :: segments s) s) ;;;
    (* pop the tail *)
    assign (fun s => set_segments (removelast (segments s)) s) ;;;
    (* clear the flag of the previous head *)
    let! s := this in
    if decide (1 < length (segments s))%nat then
      match segments s !! 1%nat with
      | Some second =>
          assign (set_segments
            (<[1%nat := mkSegment (position second) false]> (segments s)))
      | None => ret tt
      end
    else ret tt
  end.

Definition opposites (d : Direction) : Direction :=
  match d with
  | UP => DOWN
  | DOWN => UP
  | LEFT => RIGHT
  | RIGHT => LEFT
  end.

Definition isOppositeDirection (s : Snake) (d : Direction) : bool :=
  bool_decide (opposites (direction s) = d).

Definition changeDirection (newDirection : Direction) : JS Snake unit :=
  let! s := this in
  if isOppositeDirection s newDirection then ret tt
  else assign (set_nextDirection newDirection).

Definition grow : JS Snake unit :=
  let! s := this in
  match js_index (segments s) (Z.of_nat (length (segments s)) - 1) with
  | None => throw TypeError            (* [tail.position] of undefined *)
  | Some tail =>
    assign (fun s => set_segments
      (segments s ++ [mkSegment (mkPosition (x (position tail)) (y (position tail))) false]) s)
  end.

(** On an empty array [slice(1)] is empty and [some] never calls its
    argument, so nothing is thrown. *)
Definition hasSelfCollision : JS Snake bool :=
  let! s := this in
  match segments s !! 0%nat with
  | Some head =>
      ret (existsb (fun segment => Position.equals (position segment) (position head))
             (drop 1 (segments s)))
  | None => ret false
  end.

Definition getHeadPosition : JS Snake Position :=
  let! s := this in
  match segments s !! 0%nat with
  | Some head => ret (position head)
  | None => throw TypeError
  end.

Definition getSegments : JS Snake (list SnakeSegment) :=
  let! s := this in
  ret ((fun segment => mkSegment (position segment) (isHead segment)) <$> segments s).

Definition getLength : JS Snake Z :=
  let! s := this in ret (Z.of_nat (length (segments s))).

Definition reset : JS Snake unit :=
  assign (set_direction RIGHT) ;;;
  assign (set_nextDirection RIGHT) ;;;
  initializeSnake.

Definition getDirection : JS Snake Direction :=
  let! s := this in ret (direction s).

Definition containsPosition (p : Position) : JS Snake bool :=
  let! s := this in
  ret (existsb (fun segment => Position.equals (position segment) p) (segments s)).
End Snake.

(** ** Food (entities/food) *)

Module Food.
Definition calculatePoints (type : FoodType) : Z :=
  match type with
  | REGULAR => 10
  | SPECIAL => 25
  end.

(** The constructor only fills the three fields. *)
Definition new (config : GameConfig) (position : option Position)
    (type : FoodType) : Food :=
  mkFood position type (calculatePoints type).

Definition set_position (p : option Position) (f : Food) : Food :=
  mkFood p (food_type f) (food_points f).

Definition getPosition : JS Food (option Position) :=
  let! f := this in ret (food_position f).
Definition getType : JS Food FoodType :=
  let! f := this in ret (food_type f).
Definition getPoints : JS Food Z :=
  let! f := this in ret (food_points f).

Definition respawn (availablePositions : list Position) : JS Food unit :=
  if decide (length availablePositions = 0%nat) then
    throw (Error "No available positions for food spawn")
  else
    let! r := Math_random in
    let randomIndex := random_index r (length availablePositions) in
    assign (set_position (js_index availablePositions randomIndex)).

Definition isAtPosition (p : Position) : JS Food bool :=
  let! f := this in
  match food_position f with
  | Some q => ret (Position.equals q p)
  | None => throw TypeError
  end.

(** Static: [Math.random() < config.specialFoodSpawnChance]. *)
Definition createRandomFood {S} (config : GameConfig)
    (position : option Position) : JS S Food :=
  let! r := Math_random in
  let isSpecial := negb (Qle_bool (specialFoodSpawnChance config) (unit_value r)) in
  let type := if isSpecial then SPECIAL else REGULAR in
  ret (new config position type).
End Food.

(** ** GameBoard (entities/game-board) *)

Record GameBoard := mkGameBoard { board_gridSize : Z }.

Module GameBoard.
Definition isOutOfBounds (b : GameBoard) (p : Position) : bool :=
  bool_decide (x p < 0) || bool_decide (x p >= board_gridSize b)
  || bool_decide (y p < 0) || bool_decide (y p >= board_gridSize b).

Definition isValidPosition (b : GameBoard) (p : Position) : bool :=
  negb (isOutOfBounds b p).

(** The key [`${x},${y}`] of a cell.  Integers print in decimal (JavaScript
    does so below 1e21). *)
Definition positionKey (x y : Z) : string :=
  pretty x +:+ "," +:+ pretty y.

Definition getEmptyPositions (b : GameBoard) : list Position :=
  x ← seqZ 0 (board_gridSize b);
  y ← seqZ 0 (board_gridSize b);
  [mkPosition x y].

(** Outer loop over [x], inner loop over [y]; a cell is pushed when its
    key is not in the set of the snake's keys. *)
Definition getEmptyPositionsExcludingSnake (b : GameBoard)
    (snakeSegments : list SnakeSegment) : list Position :=
  let snakePositions : gset string :=
    list_to_set
      ((fun segment => positionKey (x (position segment)) (y (position segment)))
         <$> snakeSegments) in
  x ← seqZ 0 (board_gridSize b);
  y ← seqZ 0 (board_gridSize b);
  if decide (positionKey x y ∈ snakePositions) then [] else [mkPosition x y].

Definition getGridSize (b : GameBoard) : Z := board_gridSize b.

Definition getCenterPosition (b : GameBoard) : Position :=
  mkPosition (board_gridSize b `div` 2) (board_gridSize b `div` 2).

(** Null (here [None]) when no cell is free; otherwise one draw picks the
    cell. *)
Definition getRandomEmptyPosition {S} (b : GameBoard)
    (snakeSegments : list SnakeSegment) : JS S (option Position) :=
  let emptyPositions := getEmptyPositionsExcludingSnake b snakeSegments in
  if decide (length emptyPositions = 0%nat) then ret None
  else
    let! r := Math_random in
    let randomIndex := random_index r (length emptyPositions) in
    ret (js_index emptyPositions randomIndex).
End GameBoard.

(** ** Storage (services/storage)

    Every access to [localStorage] sits in a try/catch: when the browser
    refuses ([storage_available] is false) [get] answers null and [set] does
    nothing. *)

Record Storage := mkStorage { prefix : string }.

Module Storage.
Definition get {S} (st : Storage) (key : string) : JS S (option Stored) :=
  world_read (fun w =>
    if storage_available w then localStorage w !! (prefix st +:+ key) else None).

Definition set {S} (st : Storage) (key : string) (value : Stored) : JS S unit :=
  world_update (fun w =>
    if storage_available w
    then set_localStorage (<[prefix st +:+ key := value]> (localStorage w)) w
    else w).



(** Writes and removes the item [prefix + 'test']; false when the browser
    refuses. *)
Definition isAvailable {S} (st : Storage) : JS S bool :=
  let! available := world_read storage_available in
  if available then
    world_update (fun w =>
      set_localStorage (delete (prefix st +:+ "test") (localStorage w)) w) ;;;
    ret true
  else ret false.
End Storage.

(** ** ScoreManager (services/score-manager) *)

Record ScoreManager := mkScoreManager {
  currentScore : Z;
  highScore : Z;
  snakeLength : Z;
  foodEaten : Z;
  gameTime : Z;
  gameStartTime : Q;
  storage : Storage;
}.

Module ScoreManager.
Definition HIGH_SCORE_KEY : string := "high-score".
Definition STATS_KEY : string := "game-stats".

Definition set_currentScore v (m : ScoreManager) :=
  mkScoreManager v (highScore m) (snakeLength m) (foodEaten m) (gameTime m)
    (gameStartTime m) (storage m).
Definition set_highScore v (m : ScoreManager) :=
  mkScoreManager (currentScore m) v (snakeLength m) (foodEaten m) (gameTime m)
    (gameStartTime m) (storage m).
Definition set_snakeLength v (m : ScoreManager) :=
  mkScoreManager (currentScore m) (highScore m) v (foodEaten m) (gameTime m)
    (gameStartTime m) (storage m).
Definition set_foodEaten v (m : ScoreManager) :=
  mkScoreManager (currentScore m) (highScore m) (snakeLength m) v (gameTime m)
    (gameStartTime m) (storage m).
Definition set_gameTime v (m : ScoreManager) :=
  mkScoreManager (currentScore m) (highScore m) (snakeLength m) (foodEaten m) v
    (gameStartTime m) (storage m).
Definition set_gameStartTime v (m : ScoreManager) :=
  mkScoreManager (currentScore m) (highScore m) (snakeLength m) (foodEaten m)
    (gameTime m) v (storage m).

Definition loadHighScore : JS ScoreManager unit :=
  let! m := this in
  let! savedHighScore := Storage.get (storage m) HIGH_SCORE_KEY in
  match savedHighScore with
  | Some (StoredNumber n) =>
      if decide (n > highScore m) then assign (set_highScore n) else ret tt
  | _ => ret tt
  end.

Definition new {S} (st : Storage) : JS S ScoreManager :=
  construct (mkScoreManager 0 0 3 0 0 0%Q st) loadHighScore.

Definition updateHighScore : JS ScoreManager unit :=
  let! m := this in
  if decide (currentScore m > highScore m)
  then assign (set_highScore (currentScore m))
  else ret tt.

Definition addPoints (points : Z) : JS ScoreManager unit :=
  assign (fun m => set_currentScore (currentScore m + points) m) ;;;
  updateHighScore.

Definition getCurrentScore : JS ScoreManager Z :=
  let! m := this in ret (currentScore m).
Definition getHighScore : JS ScoreManager Z :=
  let! m := this in ret (highScore m).

Definition getScore : JS ScoreManager ScoreData :=
  let! m := this in
  ret (mkScoreData (currentScore m) (highScore m) (snakeLength m)
         (foodEaten m) (gameTime m)).

(** [stats?.totalGames || 0] *)
Definition getTotalGames : JS ScoreManager Z :=
  let! m := this in
  let! stats := Storage.get (storage m) STATS_KEY in
  match stats with
  | Some (StoredStats _ _ totalGames) => ret totalGames
  | _ => ret 0
  end.

Definition saveGameStats : JS ScoreManager unit :=
  let! m := this in
  let! lastPlayed := Date_toISOString in
  let! total := getTotalGames in
  Storage.set (storage m) STATS_KEY (StoredStats (highScore m) lastPlayed (total + 1)).

Definition saveHighScore : JS ScoreManager unit :=
  let! m := this in
  Storage.set (storage m) HIGH_SCORE_KEY (StoredNumber (highScore m)) ;;;
  saveGameStats.

Definition resetScore : JS ScoreManager unit :=
  assign (set_currentScore 0) ;;;
  assign (set_snakeLength 3) ;;;
  assign (set_foodEaten 0) ;;;
  assign (set_gameTime 0) ;;;
  assign (set_gameStartTime 0%Q).

Definition incrementFoodEaten : JS ScoreManager unit :=
  assign (fun m => set_foodEaten (foodEaten m + 1) m).

Definition updateGameTime (time : Z) : JS ScoreManager unit :=
  assign (set_gameTime time).

Definition startGameTimer : JS ScoreManager unit :=
  let! now := performance_now in assign (set_gameStartTime now).

Definition updateTimer : JS ScoreManager unit :=
  let! m := this in
  if Qlt_le_dec 0 (gameStartTime m) then
    let! now := performance_now in
    assign (set_gameTime (Qfloor ((now - gameStartTime m) / 1000)%Q))
  else ret tt.

Definition updateSnakeLength (length : Z) : JS ScoreManager unit :=
  assign (set_snakeLength length).
End ScoreManager.

(** ** GameEngine (services/game-engine) *)

Record GameEngine := mkEngine {
  config : GameConfig;
  snake : Snake;
  food : Food;
  gameBoard : GameBoard;
  scoreManager : ScoreManager;
  gameState : GameState;
  lastUpdateTime : Q;
  animationFrameId : option Z;
}.

(** What [getRenderData] hands to the renderer. *)
Record GameRenderData := mkRenderData {
  rd_snake : list SnakeSegment;
  rd_food : Food;
  rd_score : ScoreData;
  rd_gameState : GameState;
}.

Module GameEngine.
Definition set_snake v (e : GameEngine) :=
  mkEngine (config e) v (food e) (gameBoard e) (scoreManager e) (gameState e)
    (lastUpdateTime e) (animationFrameId e).
Definition set_food v (e : GameEngine) :=
  mkEngine (config e) (snake e) v (gameBoard e) (scoreManager e) (gameState e)
    (lastUpdateTime e) (animationFrameId e).
Definition set_scoreManager v (e : GameEngine) :=
  mkEngine (config e) (snake e) (food e) (gameBoard e) v (gameState e)
    (lastUpdateTime e) (animationFrameId e).
Definition set_gameState v (e : GameEngine) :=
  mkEngine (config e) (snake e) (food e) (gameBoard e) (scoreManager e) v
    (lastUpdateTime e) (animationFrameId e).
Definition set_lastUpdateTime v (e : GameEngine) :=
  mkEngine (config e) (snake e) (food e) (gameBoard e) (scoreManager e)
    (gameState e) v (animationFrameId e).
Definition set_animationFrameId v (e : GameEngine) :=
  mkEngine (config e) (snake e) (food e) (gameBoard e) (scoreManager e)
    (gameState e) (lastUpdateTime e) v.

Definition on_snake {A} (m : JS Snake A) : JS GameEngine A :=
  on_field snake set_snake m.
Definition on_food {A} (m : JS Food A) : JS GameEngine A :=
  on_field food set_food m.
Definition on_scoreManager {A} (m : JS ScoreManager A) : JS GameEngine A :=
  on_field scoreManager set_scoreManager m.

(** [if (this.animationFrameId) { cancelAnimationFrame(...); ... = null }];
    the handle 0 is falsy, like null. *)
Definition cancelFrame : JS GameEngine unit :=
  let! e := this in
  match animationFrameId e with
  | Some id =>
      if decide (id = 0) then ret tt
      else cancelAnimationFrame id ;;; assign (set_animationFrameId None)
  | None => ret tt
  end.

Definition createInitialFood : JS GameEngine Food :=
  let! segs := on_snake Snake.getSegments in
  let! e := this in
  let emptyPositions :=
    GameBoard.getEmptyPositionsExcludingSnake (gameBoard e) segs in
  let! r := Math_random in
  let randomPosition :=
    js_index emptyPositions (random_index r (length emptyPositions)) in
  Food.createRandomFood (config e) randomPosition.

(** The constructor; [food] is unassigned until [createInitialFood] has
    run, and that method does not read it. *)
Definition new {S} (config : GameConfig) (scoreManager : ScoreManager)
  : JS S GameEngine :=
  let! snake := Snake.new config in
  let gameBoard := mkGameBoard (gridSize config) in
  construct
    (mkEngine config snake (mkFood None REGULAR 0) gameBoard scoreManager
       MENU 0%Q None)
    (let! f := createInitialFood in assign (set_food f)).

Definition getState : JS GameEngine GameState :=
  let! e := this in ret (gameState e).

Definition getScore : JS GameEngine ScoreData :=
  on_scoreManager ScoreManager.getScore.

Definition getRenderData : JS GameEngine GameRenderData :=
  let! segs := on_snake Snake.getSegments in
  let! e := this in
  let! score := on_scoreManager ScoreManager.getScore in
  ret (mkRenderData segs (food e) score (gameState e)).

Definition gameOver : JS GameEngine unit :=
  assign (set_gameState GAME_OVER) ;;;
  on_scoreManager ScoreManager.saveHighScore ;;;
  cancelFrame ;;;
  let! score := on_scoreManager ScoreManager.getScore in
  emit (game_over score).

Definition checkCollisions : JS GameEngine unit :=
  let! headPosition := on_snake Snake.getHeadPosition in
  let! e := this in
  if GameBoard.isOutOfBounds (gameBoard e) headPosition then gameOver
  else
    let! hit := on_snake Snake.hasSelfCollision in
    if hit then gameOver else ret tt.

Definition spawnNewFood : JS GameEngine unit :=
  let! segs := on_snake Snake.getSegments in
  let! e := this in
  let emptyPositions :=
    GameBoard.getEmptyPositionsExcludingSnake (gameBoard e) segs in
  if decide (length emptyPositions = 0%nat) then
    gameOver                            (* no empty positions, game won *)
  else
    let! r := Math_random in
    let! f := Food.createRandomFood (config e)
                (js_index emptyPositions (random_index r (length emptyPositions))) in
    assign (set_food f) ;;;
    emit (food_spawn f).

(** [head.equals(food.getPosition())] reads [other.x]: a [TypeError] when
    the food has no position. *)
Definition checkFoodConsumption : JS GameEngine unit :=
  let! headPosition := on_snake Snake.getHeadPosition in
  let! foodPosition := on_food Food.getPosition in
  match foodPosition with
  | None => throw TypeError
  | Some p =>
    if Position.equals headPosition p then
      on_snake Snake.grow ;;;
      let! points := on_food Food.getPoints in
      on_scoreManager (ScoreManager.addPoints points) ;;;
      on_scoreManager ScoreManager.incrementFoodEaten ;;;
      let! len := on_snake Snake.getLength in
      on_scoreManager (ScoreManager.updateSnakeLength len) ;;;
      let! e := this in
      let! score := on_scoreManager ScoreManager.getCurrentScore in
      emit (food_eaten (food e) score) ;;;
      spawnNewFood
    else ret tt
  end.

Definition updateScore : JS GameEngine unit :=
  on_scoreManager ScoreManager.updateTimer ;;;
  let! len := on_snake Snake.getLength in
  on_scoreManager (ScoreManager.updateSnakeLength len) ;;;
  let! score := on_scoreManager ScoreManager.getScore in
  emit (score_update score).

Definition update (deltaTime : Q) : JS GameEngine unit :=
  let! e := this in
  if decide (gameState e ≠ PLAYING) then ret tt
  else
    on_snake Snake.move ;;;
    checkCollisions ;;;
    checkFoodConsumption ;;;
    updateScore ;;;
    let! headPosition := on_snake Snake.getHeadPosition in
    emit (snake_move headPosition).

Definition gameLoop : JS GameEngine unit :=
  let! e := this in
  if decide (gameState e ≠ PLAYING) then ret tt
  else
    let! currentTime := performance_now in
    let deltaTime := (currentTime - lastUpdateTime e)%Q in
    (if Qle_bool (gameSpeed (config e)) deltaTime then
       update deltaTime ;;;
       assign (set_lastUpdateTime currentTime)
     else ret tt) ;;;
    let! id := requestAnimationFrame in
    assign (set_animationFrameId (Some id)).

Definition reset : JS GameEngine unit :=
  on_snake Snake.reset ;;;
  on_scoreManager ScoreManager.resetScore ;;;
  (let! f := createInitialFood in assign (set_food f)) ;;;
  assign (set_gameState MENU) ;;;
  cancelFrame ;;;
  let! now := performance_now in
  emit (game_reset now).

Definition start : JS GameEngine unit :=
  let! e := this in
  if bool_decide (gameState e ≠ MENU) && bool_decide (gameState e ≠ GAME_OVER)
  then ret tt
  else
    reset ;;;
    assign (set_gameState PLAYING) ;;;
    (let! now := performance_now in assign (set_lastUpdateTime now)) ;;;
    on_scoreManager ScoreManager.startGameTimer ;;;
    gameLoop ;;;
    let! e := this in
    emit (game_start (config e)).

Definition pause : JS GameEngine unit :=
  let! e := this in
  if decide (gameState e ≠ PLAYING) then ret tt
  else
    assign (set_gameState PAUSED) ;;;
    let! now := performance_now in
    emit (game_pause now).

Definition resume : JS GameEngine unit :=
  let! e := this in
  if decide (gameState e ≠ PAUSED) then ret tt
  else
    assign (set_gameState PLAYING) ;;;
    (let! now := performance_now in assign (set_lastUpdateTime now)) ;;;
    gameLoop ;;;
    let! now := performance_now in
    emit (game_resume now).

Definition togglePause : JS GameEngine unit :=
  let! e := this in
  if decide (gameState e = PLAYING) then pause
  else if decide (gameState e = PAUSED) then resume
  else ret tt.

Definition stop : JS GameEngine unit :=
  assign (set_gameState MENU) ;;;
  cancelFrame.

Definition changeDirection (direction : Direction) : JS GameEngine unit :=
  let! e := this in
  if decide (gameState e ≠ PLAYING) then ret tt
  else
    on_snake (Snake.changeDirection direction) ;;;
    emit (snake_direction_change direction).

(** The callback given to [requestAnimationFrame] runs [gameLoop] when the
    browser fires a frame that is still pending. *)
Definition frameCallback (id : Z) : JS GameEngine unit :=
  let! pending := world_read frames_pending in
  if decide (id ∈ pending) then
    world_update (fun w =>
      set_frames (frames_requested w) (filter (fun i => i ≠ id) (frames_pending w)) w) ;;;
    gameLoop
  else ret tt.
End GameEngine.

(** ** Configuration (config/game-config)

    As in [GameConfig], the colours are left out. *)

Inductive DifficultyLevel := EASY | NORMAL | HARD | EXPERT.

Record GameSettings := mkSettings {
  difficulty : DifficultyLevel;
  soundEnabled : bool;
  settings_gridSize : Z;
}.

(** The entries a difficulty overrides. *)
Record DifficultyConfig := mkDifficultyConfig {
  dc_gridSize : Z;
  dc_gameSpeed : Q;
  dc_specialFoodSpawnChance : Q;
}.

Module Config.
Definition defaultGameConfig : GameConfig := mkConfig 20 150 3 (1 # 10).

Definition difficultyConfigs (d : DifficultyLevel) : DifficultyConfig :=
  match d with
  | EASY => mkDifficultyConfig 15 200 (15 # 100)
  | NORMAL => mkDifficultyConfig 20 150 (1 # 10)
  | HARD => mkDifficultyConfig 25 100 (5 # 100)
  | EXPERT => mkDifficultyConfig 30 80 (2 # 100)
  end.

Definition defaultGameSettings : GameSettings := mkSettings NORMAL true 20.


(** [{...defaultGameConfig, ...difficultyConfig}] *)
Definition getConfigForDifficulty (d : DifficultyLevel) : GameConfig :=
  let difficultyConfig := difficultyConfigs d in
  mkConfig (dc_gridSize difficultyConfig) (dc_gameSpeed difficultyConfig)
    (initialSnakeLength defaultGameConfig)
    (dc_specialFoodSpawnChance difficultyConfig).

(** On a complete configuration the [typeof] tests hold, and the numeric
    ones remain. *)
Definition validateGameConfig (config : GameConfig) : bool :=
  bool_decide (gridSize config > 0)
  && negb (Qle_bool (gameSpeed config) 0)
  && bool_decide (initialSnakeLength config > 0)
  && Qle_bool 0 (specialFoodSpawnChance config)
  && Qle_bool (specialFoodSpawnChance config) 1.
End Config.

(** * Vocabulary of the statements *)

(** The unit vectors as the specification lists them. *)
Definition spec_unit_vector (d : Direction) : Position :=
  match d with
  | UP => mkPosition 0 (-1)
  | DOWN => mkPosition 0 1
  | LEFT => mkPosition (-1) 0
  | RIGHT => mkPosition 1 0
  end.

(** The segments after one [move] of a snake [head :: rest] whose new head
    is at [p]. *)
Definition moved_segments (p : Position) (head : SnakeSegment)
    (rest : list SnakeSegment) : list SnakeSegment :=
  mkSegment p true ::
  match rest with
  | [] => []
  | _ :: _ => mkSegment (position head) false :: removelast rest
  end.

(** Calls a client can make on a snake. *)
Inductive SnakeCall :=
  | CallMove
  | CallGrow
  | CallReset
  | CallTurn (d : Direction).

Definition snake_call (c : SnakeCall) : JS Snake unit :=
  match c with
  | CallMove => Snake.move
  | CallGrow => Snake.grow
  | CallReset => Snake.reset
  | CallTurn d => Snake.changeDirection d
  end.

(** A straight-line sequence of calls: a throw ends it. *)
Fixpoint snake_calls (cs : list SnakeCall) : JS Snake unit :=
  match cs with
  | [] => ret tt
  | c :: cs' => snake_call c ;;; snake_calls cs'
  end.

(** The snakes a client can get hold of: the constructed one, and the one
    left by any call on such a snake, whether the call returned or threw. *)
Inductive snake_reachable (cfg : GameConfig) : Snake -> Prop :=
  | snake_reachable_new (w w' : World) (s : Snake) :
      Snake.new cfg tt w = (Normal s, tt, w') -> snake_reachable cfg s
  | snake_reachable_call (s : Snake) (c : SnakeCall) (w : World) :
      snake_reachable cfg s ->
      snake_reachable cfg (state_of (snake_call c s w)).

(** The head flags a snake of [n] segments should carry. *)
Definition expected_flags (n : nat) : list bool :=
  match n with
  | O => []
  | Datatypes.S k => true :: replicate k false
  end.

(** A world for the examples: every random draw is 0, the clock reads
    0, 200, 400, ... *)
Definition zero_draw : UnitInterval := mkUnit 0 eq_refl.
Definition example_world : World :=
  mkWorld (fun _ => zero_draw) 0 (fun n => inject_Z (Z.of_nat n * 200)) 0
    (fun _ => "2024-01-01T00:00:00.000Z") 0 (fun n => Z.of_nat n + 1) 0 []
    ∅ true [].
Definition example_config : GameConfig := mkConfig 10 100 3 (1 # 10).
Definition example_snake : Snake :=
  mkSnake example_config
    [mkSegment (mkPosition 5 5) true; mkSegment (mkPosition 4 5) false;
     mkSegment (mkPosition 3 5) false] RIGHT RIGHT.

(** [example_snake] after an accepted request to turn up: it still heads
    right, and up is pending. *)
Definition turned_snake : Snake :=
  mkSnake example_config
    [mkSegment (mkPosition 5 5) true; mkSegment (mkPosition 4 5) false;
     mkSegment (mkPosition 3 5) false] RIGHT UP.

(** What every reachable snake satisfies. *)
Definition snake_inv (cfg : GameConfig) (s : Snake) : Prop :=
  snake_config s = cfg /\
  isHead <$> segments s = expected_flags (length (segments s)) /\
  (segments s = [] <-> initialSnakeLength cfg <= 0).

(** A score manager in the middle of a game. *)
Definition example_scoreManager : ScoreManager :=
  mkScoreManager 15 15 4 1 7 200 (mkStorage "snake-game-").

(** The cells of the board column by column ([x] outside, [y] inside), and
    row by row, the order the specification names. *)
Definition column_major_cells (n : Z) : list Position :=
  x ← seqZ 0 n; y ← seqZ 0 n; [mkPosition x y].
Definition spec_row_major_cells (n : Z) : list Position :=
  y ← seqZ 0 n; x ← seqZ 0 n; [mkPosition x y].

(** No comma among the characters of a string. *)
Fixpoint comma_free (s : string) : bool :=
  match s with
  | EmptyString => true
  | String c s' => negb (Ascii.eqb c ","%char) && comma_free s'
  end.

(** The score data of a score manager, and the engine as [gameOver] leaves
    it. *)
Definition score_data (m : ScoreManager) : ScoreData :=
  mkScoreData (currentScore m) (highScore m) (snakeLength m) (foodEaten m)
    (gameTime m).
Definition cleared_frame (o : option Z) : option Z :=
  match o with
  | Some id => if decide (id = 0) then Some id else None
  | None => None
  end.
Definition ended (e : GameEngine) : GameEngine :=
  mkEngine (config e) (snake e) (food e) (gameBoard e) (scoreManager e)
    GAME_OVER (lastUpdateTime e) (cleared_frame (animationFrameId e)).

(** Notifications of the food being eaten or placed. *)
Definition food_event (ev : Event) : bool :=
  match ev with
  | food_eaten _ _ | food_spawn _ => true
  | _ => false
  end.

(** The snake [s], whose segments are [head :: rest], after one [move]. *)
Definition moved_snake (s : Snake) (head : SnakeSegment)
    (rest : list SnakeSegment) : Snake :=
  mkSnake (snake_config s)
    (moved_segments
       (Snake.calculateNewHeadPosition (Snake.set_direction (nextDirection s) s)
          (position head)) head rest)
    (nextDirection s) (nextDirection s).

(** Calls a client, or the browser firing a frame, can make on the engine. *)
Inductive EngineCall :=
  | EStart
  | EPause
  | EResume
  | ETogglePause
  | EStop
  | EReset
  | EUpdate (deltaTime : Q)
  | EChangeDirection (d : Direction)
  | EFrame (id : Z).

Definition engine_call (c : EngineCall) : JS GameEngine unit :=
  match c with
  | EStart => GameEngine.start
  | EPause => GameEngine.pause
  | EResume => GameEngine.resume
  | ETogglePause => GameEngine.togglePause
  | EStop => GameEngine.stop
  | EReset => GameEngine.reset
  | EUpdate deltaTime => GameEngine.update deltaTime
  | EChangeDirection d => GameEngine.changeDirection d
  | EFrame id => GameEngine.frameCallback id
  end.

(** The engines that can exist: the constructed one, for any configuration,
    score manager and world, and the one left by any call made on such an
    engine in any world, whether the call returned or threw. *)
Inductive engine_reachable : GameEngine -> Prop :=
  | engine_reachable_new (cfg : GameConfig) (sm : ScoreManager) (w w' : World)
      (e : GameEngine) :
      GameEngine.new cfg sm tt w = (Normal e, tt, w') -> engine_reachable e
  | engine_reachable_call (e : GameEngine) (c : EngineCall) (w : World) :
      engine_reachable e -> engine_reachable (state_of (engine_call c e w)).

(** The food, when it has a position, lies on the board and on no segment of
    the snake. *)
Definition food_clear (e : GameEngine) : Prop :=
  forall p, food_position (food e) = Some p ->
    GameBoard.isOutOfBounds (gameBoard e) p = false /\
    p ∉ position <$> segments (snake e).

(** While a game runs or is paused the food is clear of the snake. *)
Definition engine_inv (e : GameEngine) : Prop :=
  gameState e = PLAYING \/ gameState e = PAUSED -> food_clear e.

(** Hoare triples over the engine: from a state satisfying [P], the method
    returns a value and a state satisfying [Q] or throws in a state
    satisfying [E]. *)
Definition triple {A} (P : GameEngine -> Prop) (m : JS GameEngine A)
    (Q : A -> GameEngine -> Prop) (E : GameEngine -> Prop) : Prop :=
  forall e w, P e ->
    match m e w with
    | (Normal a, e', _) => Q a e'
    | (Throw _, e', _) => E e'
    end.

(** Two engines that differ at most in the score manager, the time of the
    last update and the pending frame. *)
Definition same_game (e e' : GameEngine) : Prop :=
  snake e' = snake e /\ food e' = food e /\ gameBoard e' = gameBoard e /\
  gameState e' = gameState e /\ config e' = config e.

(** A method that leaves the game (snake, food, board, state,
    configuration) as it found it, and a predicate that looks at nothing
    else. *)
Definition keeps_game {A} (m : JS GameEngine A) : Prop :=
  forall e w, same_game e (state_of (m e w)).
Definition game_stable (P : GameEngine -> Prop) : Prop :=
  forall e e', same_game e e' -> P e -> P e'.

(** The food, when it has a position, lies on the board and on no segment
    behind the head. *)
Definition food_off_body (e : GameEngine) : Prop :=
  forall p, food_position (food e) = Some p ->
    GameBoard.isOutOfBounds (gameBoard e) p = false /\
    p ∉ position <$> drop 1 (segments (snake e)).

(** The engine as constructed for [example_config] in [example_world], and
    the same engine started and ticked until its snake's head is in the
    last column, heading right. *)
Definition example_engine : GameEngine :=
  mkEngine example_config example_snake (mkFood (Some (mkPosition 0 0)) SPECIAL 25)
    (mkGameBoard 10) (mkScoreManager 0 0 3 0 0 0 (mkStorage "snake-game-"))
    MENU 0 None.
Definition engine_calls (cs : list EngineCall) (e : GameEngine) (w : World)
  : GameEngine * World :=
  foldl (fun ew c => let r := engine_call c ew.1 ew.2 in (state_of r, world_of r))
    (e, w) cs.
Definition near_wall_engine : GameEngine :=
  (engine_calls [EStart; EUpdate 100; EUpdate 100; EUpdate 100] example_engine
     (set_randoms_used 2 example_world)).1.
Definition near_wall_world : World :=
  (engine_calls [EStart; EUpdate 100; EUpdate 100; EUpdate 100] example_engine
     (set_randoms_used 2 example_world)).2.

(** An engine record that no run produces: playing, with the food lying on
    the fourth segment of a snake that is about to turn up into that very
    segment. *)
Definition unreachable_engine : GameEngine :=
  mkEngine example_config
    (mkSnake example_config
       [mkSegment (mkPosition 5 5) true; mkSegment (mkPosition 4 5) false;
        mkSegment (mkPosition 4 4) false; mkSegment (mkPosition 5 4) false;
        mkSegment (mkPosition 6 4) false] RIGHT UP)
    (mkFood (Some (mkPosition 5 4)) REGULAR 10)
    (mkGameBoard 10) (mkScoreManager 0 0 5 0 0 0 (mkStorage "snake-game-"))
    PLAYING 0 None.

(** An engine in play with ordinary food on the cell in front of the snake's
    head, and one with the food elsewhere. *)
Definition feeding_engine : GameEngine :=
  mkEngine example_config example_snake (mkFood (Some (mkPosition 6 5)) REGULAR 10)
    (mkGameBoard 10) (mkScoreManager 0 0 3 0 0 0 (mkStorage "snake-game-"))
    PLAYING 0 None.
Definition cruising_engine : GameEngine :=
  mkEngine example_config example_snake (mkFood (Some (mkPosition 0 0)) SPECIAL 25)
    (mkGameBoard 10) (mkScoreManager 0 0 3 0 0 0 (mkStorage "snake-game-"))
    PLAYING 0 None.

(** A board of one cell, filled by a snake of one segment: the engine as
    constructed, where the food has found no cell, and the same engine in
    play. *)
Definition crowded_config : GameConfig := mkConfig 1 100 1 (1 # 10).
Definition crowded_engine : GameEngine :=
  mkEngine crowded_config
    (mkSnake crowded_config [mkSegment (mkPosition 0 0) true] RIGHT RIGHT)
    (mkFood None SPECIAL 25) (mkGameBoard 1)
    (mkScoreManager 0 0 3 0 0 0 (mkStorage "snake-game-")) MENU 0 None.


(** Calls a client can make on a score manager (the getters change
    nothing). *)
Inductive ScoreCall :=
  | SAddPoints (points : Z)
  | SResetScore
  | SIncrementFoodEaten
  | SUpdateGameTime (time : Z)
  | SStartGameTimer
  | SUpdateTimer
  | SUpdateSnakeLength (length : Z)
  | SSaveHighScore.

Definition score_call (c : ScoreCall) : JS ScoreManager unit :=
  match c with
  | SAddPoints points => ScoreManager.addPoints points
  | SResetScore => ScoreManager.resetScore
  | SIncrementFoodEaten => ScoreManager.incrementFoodEaten
  | SUpdateGameTime time => ScoreManager.updateGameTime time
  | SStartGameTimer => ScoreManager.startGameTimer
  | SUpdateTimer => ScoreManager.updateTimer
  | SUpdateSnakeLength length => ScoreManager.updateSnakeLength length
  | SSaveHighScore => ScoreManager.saveHighScore
  end.

(** The score managers that can exist: the constructed one, for any storage
    and world, and the one left by any call on such a manager. *)
Inductive score_reachable : ScoreManager -> Prop :=
  | score_reachable_new (st : Storage) (w w' : World) (m : ScoreManager) :
      ScoreManager.new st tt w = (Normal m, tt, w') -> score_reachable m
  | score_reachable_call (m : ScoreManager) (c : ScoreCall) (w : World) :
      score_reachable m -> score_reachable (state_of (score_call c m w)).

(** * Properties *)

(** ** Arrays and random indices *)

Lemma unit_value_range (r : UnitInterval) :
  (0 <= unit_value r)%Q /\ (unit_value r < 1)%Q.
Proof.
  destruct r as [q Hq]; simpl. unfold in_unit_interval in Hq.
  apply andb_prop in Hq as [H0 H1]. split.
  - by apply Qle_bool_iff.
  - apply Qnot_le_lt. intros Hle. apply Qle_bool_iff in Hle.
    rewrite Hle in H1. discriminate.
Qed.

Lemma random_index_range (r : UnitInterval) (n : nat) :
  (0 < n)%nat -> 0 <= random_index r n < Z.of_nat n.
Proof.
  intros Hn. destruct (unit_value_range r) as [H0 H1]. unfold random_index.
  assert (Hpos : (0 < inject_Z (Z.of_nat n))%Q).
  { replace 0%Q with (inject_Z 0) by reflexivity. rewrite <- Zlt_Qlt. lia. }
  split.
  - replace 0 with (Qfloor (inject_Z 0)) by apply Qfloor_Z.
    apply Qfloor_resp_le. simpl.
    apply Qmult_le_0_compat; [done|]. by apply Qlt_le_weak.
  - rewrite Zlt_Qlt. eapply Qle_lt_trans; [apply Qfloor_le|].
    rewrite <- (Qmult_1_l (inject_Z (Z.of_nat n))) at 2.
    by apply Qmult_lt_r.
Qed.

Lemma js_index_elem {A} (l : list A) (i : Z) (a : A) :
  js_index l i = Some a -> a ∈ l.
Proof.
  unfold js_index. case_decide; [|done].
  intros Hlook. by eapply list_elem_of_lookup_2.
Qed.

Lemma js_index_in_range {A} (l : list A) (i : Z) :
  0 <= i < Z.of_nat (length l) -> exists a, js_index l i = Some a /\ a ∈ l.
Proof.
  intros Hi. unfold js_index. case_decide; [|lia].
  destruct (lookup_lt_is_Some_2 l (Z.to_nat i)) as [a Ha]; [lia|].
  exists a. split; [done|]. by eapply list_elem_of_lookup_2.
Qed.

Lemma random_pick_elem {A} (l : list A) (r : UnitInterval) :
  l <> [] -> exists a, js_index l (random_index r (length l)) = Some a /\ a ∈ l.
Proof.
  intros Hl. apply js_index_in_range, random_index_range.
  destruct l; [done|simpl; lia].
Qed.

(** ** Snake *)

Lemma initializeSnake_run (s : Snake) (w : World) :
  Snake.initializeSnake s w =
  (Normal tt,
   Snake.set_segments
     ((fun i => mkSegment (mkPosition (gridSize (snake_config s) `div` 2 - i)
                             (gridSize (snake_config s) `div` 2))
                  (bool_decide (i = 0)))
        <$> seqZ 0 (initialSnakeLength (snake_config s))) s, w).
Proof. reflexivity. Qed.

Lemma new_snake_run (cfg : GameConfig) (w : World) :
  Snake.new cfg tt w =
  (Normal (mkSnake cfg
     ((fun i => mkSegment (mkPosition (gridSize cfg `div` 2 - i) (gridSize cfg `div` 2))
                  (bool_decide (i = 0)))
        <$> seqZ 0 (initialSnakeLength cfg)) RIGHT RIGHT), tt, w).
Proof. reflexivity. Qed.

Lemma example_snake_new :
  Snake.new example_config tt example_world = (Normal example_snake, tt, example_world).
Proof. reflexivity. Qed.

Lemma move_cons (s : Snake) (w : World) (head : SnakeSegment)
    (rest : list SnakeSegment) :
  segments s = head :: rest ->
  Snake.move s w = (Normal tt, moved_snake s head rest, w).
Proof.
  destruct s as [cfg segs d nd]; simpl. intros ->.
  unfold Snake.move, bind, assign, this, ret; simpl.
  destruct rest as [|second rest]; simpl; [done|].
  destruct rest; simpl; done.
Qed.

Lemma move_nil (s : Snake) (w : World) :
  segments s = [] ->
  Snake.move s w = (Throw TypeError, Snake.set_direction (nextDirection s) s, w).
Proof.
  destruct s as [cfg segs d nd]; simpl. by intros ->.
Qed.

Lemma last_cons_default {A} (l : list A) (a d : A) :
  List.last (a :: l) d = List.last l a.
Proof.
  revert a d. induction l as [|b l IH]; intros a d; [done|].
  change (List.last (a :: b :: l) d) with (List.last (b :: l) d).
  by rewrite !IH.
Qed.

Lemma lookup_last_cons {A} (l : list A) (a : A) :
  (a :: l) !! length l = Some (List.last l a).
Proof.
  revert a. induction l as [|b l IH]; intros a; [done|].
  rewrite last_cons_default. apply IH.
Qed.

Lemma grow_cons (s : Snake) (w : World) (head : SnakeSegment)
    (rest : list SnakeSegment) :
  segments s = head :: rest ->
  Snake.grow s w =
  (Normal tt,
   Snake.set_segments
     (segments s ++ [mkSegment (position (List.last rest head)) false]) s, w).
Proof.
  destruct s as [cfg segs d nd]; simpl. intros ->.
  unfold Snake.grow, bind, this, js_index; simpl.
  case_decide; [|simpl in *; lia].
  replace (Z.to_nat (Z.of_nat (Datatypes.S (length rest)) - 1)) with (length rest)
    by lia.
  rewrite lookup_last_cons. unfold assign; simpl.
  by destruct (List.last rest head) as [[??]?].
Qed.

Lemma grow_nil (s : Snake) (w : World) :
  segments s = [] -> Snake.grow s w = (Throw TypeError, s, w).
Proof.
  destruct s as [cfg segs d nd]; simpl. by intros ->.
Qed.

Lemma calculateNewHeadPosition_offset (s : Snake) (p : Position) :
  Snake.calculateNewHeadPosition s p = Position.add p (spec_unit_vector (direction s)).
Proof.
  unfold Snake.calculateNewHeadPosition, Position.add.
  destruct (direction s); simpl; f_equal; lia.
Qed.

Lemma moved_segments_length p head rest :
  length (moved_segments p head rest) = length (head :: rest).
Proof.
  destruct rest as [|a rest]; simpl; [done|].
  do 2 f_equal. induction rest as [|b rest IH] in a |- *; [done|].
  simpl in *. by rewrite IH.
Qed.

Lemma moved_segments_positions p head rest :
  position <$> moved_segments p head rest
  = p :: (position <$> removelast (head :: rest)).
Proof. by destruct rest. Qed.

Lemma flags_all_false (l : list SnakeSegment) :
  isHead <$> l = replicate (length l) false
  <-> Forall (fun segment => isHead segment = false) l.
Proof.
  induction l as [|a l IH]; simpl.
  - split; [constructor|done].
  - split.
    + intros [= Ha Hl]. constructor; [done|]. by apply IH.
    + intros Hall. apply Forall_cons in Hall as [-> Hl]. f_equal. by apply IH.
Qed.

Lemma flags_expected (l : list SnakeSegment) :
  isHead <$> l = expected_flags (length l)
  <-> match l with
      | [] => True
      | head :: rest =>
          isHead head = true /\ Forall (fun segment => isHead segment = false) rest
      end.
Proof.
  destruct l as [|head rest]; simpl; [done|].
  rewrite <- flags_all_false. split.
  - intros [= Hh Hr]. done.
  - intros [Hh Hr]. f_equal; done.
Qed.

Lemma Forall_removelast {A} (P : A -> Prop) (l : list A) :
  Forall P l -> Forall P (removelast l).
Proof.
  induction 1 as [|a l Ha Hl IH]; simpl; [constructor|].
  destruct l; [constructor|]. by constructor.
Qed.

Lemma moved_segments_flags p head rest :
  isHead <$> (head :: rest) = expected_flags (length (head :: rest)) ->
  isHead <$> moved_segments p head rest
  = expected_flags (length (moved_segments p head rest)).
Proof.
  rewrite !flags_expected. intros [_ Hrest]. unfold moved_segments.
  split; [done|]. destruct rest as [|a rest]; [constructor|].
  constructor; [done|]. by apply Forall_removelast.
Qed.

Lemma initial_flags (f : Z -> Position) (len : Z) :
  isHead <$> ((fun i => mkSegment (f i) (bool_decide (i = 0))) <$> seqZ 0 len)
  = expected_flags (length (seqZ 0 len)).
Proof.
  rewrite <- (length_fmap (fun i => mkSegment (f i) (bool_decide (i = 0)))).
  apply flags_expected.
  destruct (decide (0 < len)) as [Hlen|Hlen].
  - rewrite seqZ_cons by done. simpl. split; [done|].
    apply Forall_fmap, Forall_forall. intros i Hi. simpl.
    apply elem_of_seqZ in Hi. apply bool_decide_eq_false. lia.
  - by rewrite seqZ_nil by lia.
Qed.

(** C4: on a snake with at least one segment, [move] makes the pending
    direction current, puts the new head one unit vector of that direction
    away from the old head (up is (0,-1), down (0,1), left (-1,0), right
    (1,0)) and keeps the number of segments. *)
Theorem move_translates_head (s : Snake) (w : World) (head : SnakeSegment)
    (rest : list SnakeSegment) :
  segments s = head :: rest ->
  exists s' head' rest',
    Snake.move s w = (Normal tt, s', w) /\
    direction s' = nextDirection s /\
    segments s' = head' :: rest' /\
    position head' = Position.add (position head) (spec_unit_vector (nextDirection s)) /\
    length (segments s') = length (segments s).
Proof.
  intros Hs. eexists _, _, _. split; [by apply move_cons|].
  simpl. split; [done|]. split; [reflexivity|]. split.
  - by rewrite calculateNewHeadPosition_offset.
  - rewrite Hs. apply (moved_segments_length (mkPosition 0 0) head rest).
Qed.

Lemma move_translates_head_witness :
  segments example_snake
  = mkSegment (mkPosition 5 5) true
    :: [mkSegment (mkPosition 4 5) false; mkSegment (mkPosition 3 5) false] /\
  exists s' head' rest',
    Snake.move example_snake example_world = (Normal tt, s', example_world) /\
    direction s' = nextDirection example_snake /\
    segments s' = head' :: rest' /\
    position head'
    = Position.add (mkPosition 5 5) (spec_unit_vector (nextDirection example_snake)) /\
    length (segments s') = length (segments example_snake).
Proof.
  split; [reflexivity|].
  apply (move_translates_head example_snake example_world
           (mkSegment (mkPosition 5 5) true)
           [mkSegment (mkPosition 4 5) false; mkSegment (mkPosition 3 5) false]).
  reflexivity.
Defined.

Lemma changeDirection_run (s : Snake) (w : World) (d : Direction) :
  Snake.changeDirection d s w =
  (Normal tt,
   if bool_decide (d = Snake.opposites (direction s)) then s
   else Snake.set_nextDirection d s, w).
Proof.
  unfold Snake.changeDirection, Snake.isOppositeDirection, bind, this, ret, assign.
  destruct s as [cfg segs dir nd]; simpl.
  destruct dir, d; reflexivity.
Qed.

Lemma turned_snake_reachable : snake_reachable example_config turned_snake.
Proof.
  change turned_snake
    with (state_of (snake_call (CallTurn UP) example_snake example_world)).
  apply snake_reachable_call.
  exact (snake_reachable_new _ _ _ _ example_snake_new).
Qed.

(** C5, as stated, fails: [turned_snake] heads right with up pending; the
    request to go left (the opposite of the current direction) is dropped,
    and the move that follows goes up, not on in the current direction. *)
Lemma opposite_request_then_move_counterexample :
  direction turned_snake = RIGHT /\
  state_of (Snake.changeDirection (Snake.opposites RIGHT) turned_snake example_world)
  = turned_snake /\
  let s' := state_of ((Snake.changeDirection (Snake.opposites RIGHT) ;;; Snake.move)
                        turned_snake example_world) in
  direction s' <> direction turned_snake /\
  position <$> segments s' !! 0%nat
  <> Some (Position.add (mkPosition 5 5) (spec_unit_vector (direction turned_snake))) /\
  position <$> segments s' !! 0%nat = Some (mkPosition 5 4).
Proof. repeat split; try reflexivity; vm_compute; congruence. Qed.

(** C5, amended: a request for the direction opposite to the current one
    changes nothing (the pending direction stays), any other request
    becomes the pending direction, and the next [move] goes one cell in
    the pending direction, which is the current direction when nothing
    else is pending. *)
Theorem changeDirection_guard (s : Snake) (w : World) (head : SnakeSegment)
    (rest : list SnakeSegment) :
  segments s = head :: rest ->
  Snake.changeDirection (Snake.opposites (direction s)) s w = (Normal tt, s, w) /\
  (forall d, Snake.changeDirection d s w =
     (Normal tt,
      if bool_decide (d = Snake.opposites (direction s)) then s
      else Snake.set_nextDirection d s, w)) /\
  exists s' head' rest',
    (Snake.changeDirection (Snake.opposites (direction s)) ;;; Snake.move) s w
    = (Normal tt, s', w) /\
    direction s' = nextDirection s /\
    segments s' = head' :: rest' /\
    position head' = Position.add (position head) (spec_unit_vector (nextDirection s)) /\
    (nextDirection s = direction s ->
     direction s' = direction s /\
     position head' = Position.add (position head) (spec_unit_vector (direction s))).
Proof.
  intros Hs.
  assert (Hdrop : Snake.changeDirection (Snake.opposites (direction s)) s w
                  = (Normal tt, s, w)).
  { rewrite changeDirection_run. by rewrite bool_decide_eq_true_2. }
  split; [done|]. split; [intros d; apply changeDirection_run|].
  eexists _, _, _. unfold bind. rewrite Hdrop, (move_cons s w head rest Hs).
  split; [reflexivity|]. split; [reflexivity|]. split; [reflexivity|].
  cbn [position direction]. rewrite calculateNewHeadPosition_offset.
  split; [reflexivity|]. intros Heq. rewrite <- Heq. done.
Qed.

Lemma changeDirection_guard_witness :
  segments turned_snake
  = mkSegment (mkPosition 5 5) true
    :: [mkSegment (mkPosition 4 5) false; mkSegment (mkPosition 3 5) false] /\
  Snake.changeDirection (Snake.opposites (direction turned_snake)) turned_snake
    example_world = (Normal tt, turned_snake, example_world).
Proof.
  split; [reflexivity|].
  exact (proj1 (changeDirection_guard turned_snake example_world
                  (mkSegment (mkPosition 5 5) true)
                  [mkSegment (mkPosition 4 5) false; mkSegment (mkPosition 3 5) false]
                  eq_refl)).
Defined.

Lemma removelast_snoc {A} (l : list A) (a : A) : removelast (l ++ [a]) = l.
Proof.
  induction l as [|b l IH]; [done|].
  simpl. rewrite IH. by destruct l.
Qed.

Lemma snake_calls_keep_length (cs : list SnakeCall) (s : Snake) (w : World) :
  segments s <> [] ->
  Forall (fun c => c = CallMove \/ exists d, c = CallTurn d) cs ->
  exists s', snake_calls cs s w = (Normal tt, s', w) /\
             length (segments s') = length (segments s).
Proof.
  intros Hne Hcs. revert s Hne.
  induction Hcs as [|c cs Hc _ IH]; intros s Hne; simpl.
  - by exists s.
  - unfold bind. destruct Hc as [->|[d ->]]; simpl.
    + destruct (segments s) as [|head rest] eqn:Hs; [done|].
      rewrite (move_cons s w head rest Hs).
      edestruct IH as (s' & Hrun & Hlen); last first.
      { exists s'. split; [exact Hrun|]. rewrite Hlen.
        unfold moved_snake. cbn [segments].
        apply moved_segments_length. }
      simpl. discriminate.
    + rewrite changeDirection_run.
      edestruct IH as (s' & Hrun & Hlen); last first.
      { exists s'. split; [exact Hrun|]. rewrite Hlen.
        by case_bool_decide. }
      by case_bool_decide.
Qed.

(** C6: on a snake with at least one segment, [grow] appends a copy of the
    tail, and [grow] followed by one [move] leaves one segment more than
    before, the old positions shifted back by one behind the new head;
    moves (and direction requests) without a [grow] keep the length. *)
Theorem grow_then_move_adds_one (s : Snake) (w : World) (head : SnakeSegment)
    (rest : list SnakeSegment) :
  segments s = head :: rest ->
  (exists s1 s2 p,
     Snake.grow s w = (Normal tt, s1, w) /\
     Snake.move s1 w = (Normal tt, s2, w) /\
     position <$> segments s1
     = (position <$> segments s) ++ [position (List.last rest head)] /\
     position <$> segments s2 = p :: (position <$> segments s) /\
     p = Position.add (position head) (spec_unit_vector (nextDirection s)) /\
     length (segments s2) = Datatypes.S (length (segments s))) /\
  (forall cs, Forall (fun c => c = CallMove \/ exists d, c = CallTurn d) cs ->
     exists s', snake_calls cs s w = (Normal tt, s', w) /\
                length (segments s') = length (segments s)).
Proof.
  intros Hs. split.
  - pose proof (grow_cons s w head rest Hs) as Hgrow.
    set (copy := mkSegment (position (List.last rest head)) false) in *.
    set (s1 := Snake.set_segments (segments s ++ [copy]) s) in *.
    assert (Hs1 : segments s1 = head :: (rest ++ [copy])).
    { unfold s1. simpl. by rewrite Hs. }
    pose proof (move_cons s1 w head _ Hs1) as Hmove.
    eexists s1, _, _. split; [exact Hgrow|]. split; [exact Hmove|].
    split. { unfold s1. simpl. by rewrite fmap_app. }
    unfold moved_snake. cbn [segments].
    rewrite moved_segments_positions, moved_segments_length.
    split.
    { f_equal. change (head :: rest ++ [copy]) with ((head :: rest) ++ [copy]).
      by rewrite removelast_snoc, Hs. }
    split. { by rewrite calculateNewHeadPosition_offset. }
    rewrite Hs. simpl. rewrite length_app. simpl. lia.
  - intros cs Hcs. apply snake_calls_keep_length; [|done].
    rewrite Hs. discriminate.
Qed.

Lemma grow_then_move_adds_one_witness :
  segments example_snake
  = mkSegment (mkPosition 5 5) true
    :: [mkSegment (mkPosition 4 5) false; mkSegment (mkPosition 3 5) false] /\
  exists s',
    snake_calls [CallMove; CallTurn UP; CallMove] example_snake example_world
    = (Normal tt, s', example_world) /\
    length (segments s') = length (segments example_snake).
Proof.
  split; [reflexivity|].
  apply (proj2 (grow_then_move_adds_one example_snake example_world
                  (mkSegment (mkPosition 5 5) true)
                  [mkSegment (mkPosition 4 5) false; mkSegment (mkPosition 3 5) false]
                  eq_refl)).
  constructor; [by left|]. constructor; [right; by exists UP|].
  constructor; [by left|]. constructor.
Defined.

Lemma initial_segments_nil (f : Z -> SnakeSegment) (len : Z) :
  f <$> seqZ 0 len = [] <-> len <= 0.
Proof.
  split.
  - intros Hnil. apply fmap_nil_inv in Hnil.
    destruct (decide (0 < len)); [|lia].
    rewrite seqZ_cons in Hnil by done. discriminate.
  - intros Hlen. by rewrite seqZ_nil by lia.
Qed.

Lemma snake_inv_new (cfg : GameConfig) (w w' : World) (s : Snake) :
  Snake.new cfg tt w = (Normal s, tt, w') -> snake_inv cfg s.
Proof.
  rewrite new_snake_run. intros [= <- _]. split; [done|]. simpl. split.
  - rewrite length_fmap. apply initial_flags.
  - apply initial_segments_nil.
Qed.

Lemma snake_inv_call (cfg : GameConfig) (c : SnakeCall) (s : Snake) (w : World) :
  snake_inv cfg s -> snake_inv cfg (state_of (snake_call c s w)).
Proof.
  intros (Hcfg & Hflags & Hnil).
  destruct c as [| | |d]; simpl.
  - destruct (segments s) as [|head rest] eqn:Hs.
    + rewrite (move_nil s w Hs). unfold state_of, snake_inv; simpl.
      by rewrite Hs.
    + rewrite (move_cons s w head rest Hs). unfold state_of, snake_inv, moved_snake.
      cbn [fst snd segments snake_config].
      split; [done|]. split; [by apply moved_segments_flags|].
      split; [discriminate|]. intros Hlen. by apply Hnil in Hlen.
  - destruct (segments s) as [|head rest] eqn:Hs.
    + rewrite (grow_nil s w Hs). unfold state_of, snake_inv; simpl.
      by rewrite Hs.
    + rewrite (grow_cons s w head rest Hs). unfold state_of, snake_inv; simpl.
      rewrite Hs. split; [done|]. split.
      * apply flags_expected in Hflags as [Hhead Hrest].
        apply (flags_expected (head :: rest ++ [_])). split; [done|].
        apply Forall_app. split; [done|]. by repeat constructor.
      * split; [discriminate|]. intros Hlen. by apply Hnil in Hlen.
  - unfold Snake.reset, bind, assign. rewrite initializeSnake_run.
    unfold state_of, snake_inv; simpl. rewrite Hcfg. split; [done|]. split.
    + rewrite length_fmap. apply initial_flags.
    + apply initial_segments_nil.
  - rewrite changeDirection_run. unfold state_of, snake_inv; simpl.
    by case_bool_decide.
Qed.

(** C9: on the constructed snake and after any calls of [move], [grow],
    [reset] (and [changeDirection]), the flags [isHead] of the segments
    read true, false, false, ...: the first segment and no other is the
    head.  There is a first segment unless the configured initial length
    is not positive. *)
Theorem head_flag_invariant (cfg : GameConfig) (s : Snake) :
  snake_reachable cfg s ->
  isHead <$> segments s = expected_flags (length (segments s)) /\
  (segments s = [] <-> initialSnakeLength cfg <= 0).
Proof.
  intros Hreach. cut (snake_inv cfg s); [by intros (_ & ? & ?)|].
  induction Hreach as [w w' s Hnew|s c w _ IH].
  - by eapply snake_inv_new.
  - by apply snake_inv_call.
Qed.

Lemma head_flag_invariant_witness :
  snake_reachable example_config turned_snake /\
  isHead <$> segments turned_snake = [true; false; false].
Proof.
  split; [exact turned_snake_reachable|].
  exact (proj1 (head_flag_invariant example_config turned_snake turned_snake_reachable)).
Defined.

(** ** ScoreManager *)

Lemma addPoints_run (m : ScoreManager) (w : World) (points : Z) :
  ScoreManager.addPoints points m w =
  (Normal tt,
   mkScoreManager (currentScore m + points)
     (if decide (currentScore m + points > highScore m)
      then currentScore m + points else highScore m)
     (snakeLength m) (foodEaten m) (gameTime m) (gameStartTime m) (storage m), w).
Proof.
  unfold ScoreManager.addPoints, ScoreManager.updateHighScore, bind, assign, this.
  simpl. by case_decide.
Qed.

Lemma resetScore_run (m : ScoreManager) (w : World) :
  ScoreManager.resetScore m w =
  (Normal tt, mkScoreManager 0 (highScore m) 3 0 0 0%Q (storage m), w).
Proof. reflexivity. Qed.

(** C7, as stated, fails on the length counter: [resetScore] puts it back
    to 3, not to zero. *)
Lemma resetScore_length_counterexample :
  ~ (let m' := state_of (ScoreManager.resetScore example_scoreManager example_world) in
     currentScore m' = 0 /\ snakeLength m' = 0 /\ foodEaten m' = 0 /\
     gameTime m' = 0 /\ highScore m' = highScore example_scoreManager).
Proof. simpl. intros (_ & Hlen & _). discriminate Hlen. Qed.

(** C7, amended: [addPoints p] adds [p] to the current score and raises
    the high score to it when it is now greater; from a current score of
    zero, 10 then 5 give 15 and a high score of max(15, previous);
    [resetScore] zeroes the current score, the food counter and the game
    time, puts the length counter back to 3 and leaves the high score. *)
Theorem addPoints_and_resetScore (m : ScoreManager) (w : World) (p : Z) :
  (exists m',
     ScoreManager.addPoints p m w = (Normal tt, m', w) /\
     currentScore m' = currentScore m + p /\
     highScore m' = (if decide (currentScore m + p > highScore m)
                     then currentScore m + p else highScore m) /\
     highScore m' = Z.max (highScore m) (currentScore m') /\
     snakeLength m' = snakeLength m /\ foodEaten m' = foodEaten m /\
     gameTime m' = gameTime m) /\
  (currentScore m = 0 ->
   exists m',
     (ScoreManager.addPoints 10 ;;; ScoreManager.addPoints 5) m w = (Normal tt, m', w) /\
     currentScore m' = 15 /\ highScore m' = Z.max 15 (highScore m)) /\
  (exists m',
     ScoreManager.resetScore m w = (Normal tt, m', w) /\
     currentScore m' = 0 /\ foodEaten m' = 0 /\ gameTime m' = 0 /\
     snakeLength m' = 3 /\ highScore m' = highScore m).
Proof.
  split; [|split].
  - eexists. split; [apply addPoints_run|]. simpl.
    repeat split; try done. case_decide; lia.
  - intros Hzero. eexists. unfold bind. rewrite addPoints_run, addPoints_run.
    split; [reflexivity|]. simpl. rewrite Hzero. split; [done|].
    repeat case_decide; lia.
  - eexists. split; [apply resetScore_run|]. done.
Qed.

Lemma addPoints_and_resetScore_witness :
  currentScore (mkScoreManager 0 12 3 0 0 0 (mkStorage "snake-game-")) = 0 /\
  exists m',
    (ScoreManager.addPoints 10 ;;; ScoreManager.addPoints 5)
      (mkScoreManager 0 12 3 0 0 0 (mkStorage "snake-game-")) example_world
    = (Normal tt, m', example_world) /\
    currentScore m' = 15 /\ highScore m' = Z.max 15 12.
Proof.
  split; [reflexivity|].
  apply (proj1 (proj2 (addPoints_and_resetScore
                         (mkScoreManager 0 12 3 0 0 0 (mkStorage "snake-game-"))
                         example_world 0))).
  reflexivity.
Defined.

(** ** GameEngine: pause and stop *)

Lemma pause_run (e : GameEngine) (w : World) :
  GameEngine.pause e w =
  if decide (gameState e = PLAYING) then
    (Normal tt, GameEngine.set_gameState PAUSED e,
     set_emitted (emitted w ++ [game_pause (clock w (clock_used w))])
       (set_clock_used (Datatypes.S (clock_used w)) w))
  else (Normal tt, e, w).
Proof.
  unfold GameEngine.pause, bind, this. simpl.
  destruct (gameState e) eqn:Hst; reflexivity.
Qed.

(** C8: [pause] takes a playing engine to PAUSED, telling the listeners
    once, and does nothing in any other state; so a second [pause] right
    after the first changes neither the engine nor the world: no second
    notification is sent. *)
Theorem pause_idempotent (e : GameEngine) (w : World) :
  GameEngine.pause e w =
    (if decide (gameState e = PLAYING) then
       (Normal tt, GameEngine.set_gameState PAUSED e,
        set_emitted (emitted w ++ [game_pause (clock w (clock_used w))])
          (set_clock_used (Datatypes.S (clock_used w)) w))
     else (Normal tt, e, w)) /\
  (GameEngine.pause ;;; GameEngine.pause) e w = GameEngine.pause e w /\
  emitted (world_of ((GameEngine.pause ;;; GameEngine.pause) e w))
  = emitted w ++ (if decide (gameState e = PLAYING)
                  then [game_pause (clock w (clock_used w))] else []).
Proof.
  split; [apply pause_run|].
  assert (Htwice : (GameEngine.pause ;;; GameEngine.pause) e w = GameEngine.pause e w).
  { unfold bind. rewrite (pause_run e w).
    destruct (decide (gameState e = PLAYING)) as [Hplay|Hother].
    - rewrite pause_run. simpl. reflexivity.
    - rewrite pause_run. by rewrite decide_False. }
  split; [done|]. rewrite Htwice, pause_run.
  case_decide; simpl; [done|]. by rewrite app_nil_r.
Qed.

Lemma stop_run (e : GameEngine) (w : World) :
  exists w',
    GameEngine.stop e w =
    (Normal tt,
     mkEngine (config e) (snake e) (food e) (gameBoard e) (scoreManager e) MENU
       (lastUpdateTime e)
       (match animationFrameId e with
        | Some id => if decide (id = 0) then Some id else None
        | None => None
        end), w') /\
    emitted w' = emitted w /\ localStorage w' = localStorage w.
Proof.
  unfold GameEngine.stop, GameEngine.cancelFrame, bind, assign, this. simpl.
  destruct (animationFrameId e) as [id|] eqn:Hid; simpl.
  - destruct (decide (id = 0)); simpl.
    + exists w. unfold GameEngine.set_gameState. by rewrite Hid.
    + eexists. split; [reflexivity|]. done.
  - exists w. unfold GameEngine.set_gameState. by rewrite Hid.
Qed.

(** C10: from any state [stop] leaves the engine in MENU and touches
    nothing else that can be observed: snake (segments and both
    directions), food (position and type), score manager (and so the
    score data), configuration; no notification is sent and nothing is
    stored. *)
Theorem stop_frame (e : GameEngine) (w : World) :
  let r := GameEngine.stop e w in
  completion_of r = Normal tt /\
  gameState (state_of r) = MENU /\
  snake (state_of r) = snake e /\
  food (state_of r) = food e /\
  scoreManager (state_of r) = scoreManager e /\
  completion_of (GameEngine.getScore (state_of r) (world_of r))
  = completion_of (GameEngine.getScore e w) /\
  config (state_of r) = config e /\
  gameBoard (state_of r) = gameBoard e /\
  emitted (world_of r) = emitted w /\
  localStorage (world_of r) = localStorage w.
Proof.
  destruct (stop_run e w) as (w' & Hrun & Hemit & Hstore).
  simpl. rewrite Hrun. unfold completion_of, state_of, world_of. simpl.
  repeat split; done.
Qed.

(** ** GameBoard *)

Lemma comma_free_pretty_N_go (n : N) (s : string) :
  comma_free s = true -> comma_free (pretty_N_go n s) = true.
Proof.
  revert s. induction (N.lt_wf_0 n) as [n _ IH]. intros s Hs.
  destruct (decide (n = 0)%N) as [->|Hn]; [done|].
  rewrite pretty_N_go_step by lia. apply IH.
  - apply N.div_lt; lia.
  - simpl. rewrite Hs, andb_true_r.
    unfold pretty_N_char. by repeat case_match.
Qed.

Lemma comma_free_pretty_Z (z : Z) : comma_free (pretty z) = true.
Proof.
  destruct z as [|p|p]; [done| |].
  - apply (comma_free_pretty_N_go (N.pos p) ""). done.
  - change (comma_free (String "-" (pretty_N_go (N.pos p) "")) = true).
    simpl. by apply comma_free_pretty_N_go.
Qed.

Lemma append_comma_inj (a a' b b' : string) :
  comma_free a = true -> comma_free a' = true ->
  a +:+ String "," b = a' +:+ String "," b' -> a = a' /\ b = b'.
Proof.
  revert a'. induction a as [|c a IH]; intros [|c' a']; simpl.
  - by intros _ _ [= ->].
  - intros _ Hc' [= <- _]. done.
  - intros Hc _ [= -> _]. done.
  - intros [_ Ha]%andb_prop [_ Ha']%andb_prop [= -> Heq].
    destruct (IH a' Ha Ha' Heq) as [-> ->]. done.
Qed.

Lemma positionKey_inj (x1 y1 x2 y2 : Z) :
  GameBoard.positionKey x1 y1 = GameBoard.positionKey x2 y2 -> x1 = x2 /\ y1 = y2.
Proof.
  unfold GameBoard.positionKey. intros Heq.
  apply append_comma_inj in Heq as [Hx Hy]; try apply comma_free_pretty_Z.
  split; by apply (inj pretty).
Qed.

Lemma snake_key_elem (segs : list SnakeSegment) (x0 y0 : Z) :
  GameBoard.positionKey x0 y0
    ∈@{gset string} list_to_set
        ((fun segment => GameBoard.positionKey (x (position segment)) (y (position segment)))
           <$> segs)
  <-> mkPosition x0 y0 ∈ position <$> segs.
Proof.
  rewrite elem_of_list_to_set, !list_elem_of_fmap. split.
  - intros (seg & Hkey & Hseg). exists seg. split; [|done].
    apply positionKey_inj in Hkey as [-> ->]. by destruct (position seg).
  - intros (seg & Hpos & Hseg). exists seg. split; [|done]. by rewrite <- Hpos.
Qed.

Lemma filter_bind {A B} (P : B -> Prop) `{forall b, Decision (P b)}
    (f : A -> list B) (l : list A) :
  filter P (l ≫= f) = l ≫= (fun a => filter P (f a)).
Proof.
  induction l as [|a l IH]; [done|].
  by rewrite !bind_cons, filter_app, IH.
Qed.

Lemma NoDup_bind {A B} (f : A -> list B) (l : list A) :
  NoDup l ->
  (forall a, a ∈ l -> NoDup (f a)) ->
  (forall a a' b, a ∈ l -> a' ∈ l -> b ∈ f a -> b ∈ f a' -> a = a') ->
  NoDup (l ≫= f).
Proof.
  induction 1 as [|a l Ha Hl IH]; intros Hf Hdisj; [constructor|].
  rewrite bind_cons. apply NoDup_app. split; [|split].
  - apply Hf. left.
  - intros b Hb Hb'. apply list_elem_of_bind in Hb' as (a' & Hb' & Ha').
    assert (a = a') as -> by (eapply Hdisj; eauto; [left|by right]). done.
  - apply IH.
    + intros a' Ha'. apply Hf. by right.
    + intros a1 a2 b H1 H2. apply Hdisj; by right.
Qed.

Lemma elem_of_column_major_cells (n : Z) (p : Position) :
  p ∈ column_major_cells n <-> 0 <= x p < n /\ 0 <= y p < n.
Proof.
  unfold column_major_cells. rewrite list_elem_of_bind. split.
  - intros (x0 & Hp & Hx). apply list_elem_of_bind in Hp as (y0 & Hp & Hy).
    apply list_elem_of_singleton in Hp as ->. simpl.
    apply elem_of_seqZ in Hx, Hy. lia.
  - intros [Hx Hy]. exists (x p). split; [|apply elem_of_seqZ; lia].
    apply list_elem_of_bind. exists (y p). split; [|apply elem_of_seqZ; lia].
    destruct p. simpl. apply list_elem_of_singleton. done.
Qed.

Lemma NoDup_column_major_cells (n : Z) : NoDup (column_major_cells n).
Proof.
  unfold column_major_cells. apply NoDup_bind.
  - apply NoDup_seqZ.
  - intros x0 _. apply NoDup_bind.
    + apply NoDup_seqZ.
    + intros. apply NoDup_singleton.
    + intros y1 y2 p _ _ ->%list_elem_of_singleton [= ->]%list_elem_of_singleton.
      done.
  - intros x1 x2 p _ _ (y1 & ->%list_elem_of_singleton & _)%list_elem_of_bind
      (y2 & [= -> _]%list_elem_of_singleton & _)%list_elem_of_bind.
    done.
Qed.

Lemma getEmptyPositions_column_major (b : GameBoard) :
  GameBoard.getEmptyPositions b = column_major_cells (board_gridSize b).
Proof. reflexivity. Qed.

Lemma getEmptyPositionsExcludingSnake_filter (b : GameBoard)
    (segs : list SnakeSegment) :
  GameBoard.getEmptyPositionsExcludingSnake b segs
  = filter (fun p => p ∉ position <$> segs) (column_major_cells (board_gridSize b)).
Proof.
  unfold GameBoard.getEmptyPositionsExcludingSnake, column_major_cells.
  rewrite filter_bind. apply list_bind_ext; [|done]. intros x0.
  rewrite filter_bind. apply list_bind_ext; [|done]. intros y0.
  rewrite filter_cons, filter_nil.
  pose proof (snake_key_elem segs x0 y0) as Hkey.
  repeat case_decide; tauto.
Qed.

(** C3, as stated, fails on the order: on the empty 2x2 board the code
    lists column 0 first, (0,0) (0,1) (1,0) (1,1), where row-major order
    is (0,0) (1,0) (0,1) (1,1). *)
Lemma free_cells_row_major_counterexample :
  GameBoard.getEmptyPositionsExcludingSnake (mkGameBoard 2) []
  = [mkPosition 0 0; mkPosition 0 1; mkPosition 1 0; mkPosition 1 1] /\
  filter (fun p => p ∉ position <$> []) (spec_row_major_cells 2)
  = [mkPosition 0 0; mkPosition 1 0; mkPosition 0 1; mkPosition 1 1] /\
  GameBoard.getEmptyPositionsExcludingSnake (mkGameBoard 2) []
  <> filter (fun p => p ∉ position <$> []) (spec_row_major_cells 2).
Proof. split; [|split]; vm_compute; congruence. Qed.

(** C3, amended: for every grid size and every list of segments,
    [getEmptyPositionsExcludingSnake] returns the cells of the grid that
    hold no segment, each once, in column-major order: [x] ascending and,
    for equal [x], [y] ascending. *)
Theorem getEmptyPositionsExcludingSnake_cells (b : GameBoard)
    (segs : list SnakeSegment) :
  let free := GameBoard.getEmptyPositionsExcludingSnake b segs in
  free = filter (fun p => p ∉ position <$> segs)
           (column_major_cells (board_gridSize b)) /\
  (forall p, p ∈ free <->
     0 <= x p < board_gridSize b /\ 0 <= y p < board_gridSize b /\
     p ∉ position <$> segs) /\
  NoDup free.
Proof.
  simpl. rewrite getEmptyPositionsExcludingSnake_filter.
  split; [done|]. split.
  - intros p. rewrite list_elem_of_filter, elem_of_column_major_cells. tauto.
  - apply NoDup_filter, NoDup_column_major_cells.
Qed.

Lemma free_cell_clear (b : GameBoard) (segs : list SnakeSegment) (p : Position) :
  p ∈ GameBoard.getEmptyPositionsExcludingSnake b segs ->
  GameBoard.isOutOfBounds b p = false /\ p ∉ position <$> segs.
Proof.
  rewrite getEmptyPositionsExcludingSnake_filter, list_elem_of_filter,
    elem_of_column_major_cells.
  intros (Hfree & Hx & Hy).
  split; [|done]. unfold GameBoard.isOutOfBounds.
  repeat (rewrite bool_decide_eq_false_2 by lia). done.
Qed.

(** ** Food *)

Lemma respawn_run (f : Food) (l : list Position) (w : World) :
  Food.respawn l f w =
  if decide (length l = 0%nat) then
    (Throw (Error "No available positions for food spawn"), f, w)
  else
    (Normal tt,
     Food.set_position
       (js_index l (random_index (randoms w (randoms_used w)) (length l))) f,
     set_randoms_used (Datatypes.S (randoms_used w)) w).
Proof. unfold Food.respawn. by case_decide. Qed.

(** ** Calls of the engine on its parts *)

Lemma set_snake_same (e : GameEngine) : GameEngine.set_snake (snake e) e = e.
Proof. by destruct e. Qed.
Lemma set_food_same (e : GameEngine) : GameEngine.set_food (food e) e = e.
Proof. by destruct e. Qed.
Lemma set_scoreManager_same (e : GameEngine) :
  GameEngine.set_scoreManager (scoreManager e) e = e.
Proof. by destruct e. Qed.

Lemma segments_copy (l : list SnakeSegment) :
  (fun segment => mkSegment (position segment) (isHead segment)) <$> l = l.
Proof.
  induction l as [|[p h] l IH]; [done|]. by rewrite fmap_cons, IH.
Qed.

Lemma getSegments_run (s : Snake) (w : World) :
  Snake.getSegments s w = (Normal (segments s), s, w).
Proof.
  unfold Snake.getSegments, bind, this, ret. by rewrite segments_copy.
Qed.

Lemma on_snake_getSegments (e : GameEngine) (w : World) :
  GameEngine.on_snake Snake.getSegments e w = (Normal (segments (snake e)), e, w).
Proof.
  unfold GameEngine.on_snake, on_field.
  by rewrite getSegments_run, set_snake_same.
Qed.

Lemma on_snake_getHeadPosition (e : GameEngine) (w : World) :
  GameEngine.on_snake Snake.getHeadPosition e w =
  match segments (snake e) with
  | head :: _ => (Normal (position head), e, w)
  | [] => (Throw TypeError, e, w)
  end.
Proof.
  unfold GameEngine.on_snake, on_field, Snake.getHeadPosition, bind, this, ret.
  simpl. destruct (segments (snake e)); simpl; by rewrite set_snake_same.
Qed.

Lemma on_snake_getHeadPosition_cons (e : GameEngine) (w : World) head rest :
  segments (snake e) = head :: rest ->
  GameEngine.on_snake Snake.getHeadPosition e w = (Normal (position head), e, w).
Proof. intros Hs. by rewrite on_snake_getHeadPosition, Hs. Qed.

Lemma on_snake_hasSelfCollision (e : GameEngine) (w : World) :
  GameEngine.on_snake Snake.hasSelfCollision e w =
  (Normal match segments (snake e) with
          | head :: rest =>
              existsb (fun segment => Position.equals (position segment) (position head))
                rest
          | [] => false
          end, e, w).
Proof.
  unfold GameEngine.on_snake, on_field, Snake.hasSelfCollision, bind, this, ret.
  simpl. destruct (segments (snake e)); simpl; by rewrite set_snake_same.
Qed.

Lemma on_snake_getLength (e : GameEngine) (w : World) :
  GameEngine.on_snake Snake.getLength e w =
  (Normal (Z.of_nat (length (segments (snake e)))), e, w).
Proof.
  unfold GameEngine.on_snake, on_field, Snake.getLength, bind, this, ret.
  simpl. by rewrite set_snake_same.
Qed.

Lemma on_food_getPosition (e : GameEngine) (w : World) :
  GameEngine.on_food Food.getPosition e w = (Normal (food_position (food e)), e, w).
Proof.
  unfold GameEngine.on_food, on_field, Food.getPosition, bind, this, ret.
  simpl. by rewrite set_food_same.
Qed.

Lemma on_food_getPoints (e : GameEngine) (w : World) :
  GameEngine.on_food Food.getPoints e w = (Normal (food_points (food e)), e, w).
Proof.
  unfold GameEngine.on_food, on_field, Food.getPoints, bind, this, ret.
  simpl. by rewrite set_food_same.
Qed.

Lemma on_scoreManager_getScore (e : GameEngine) (w : World) :
  GameEngine.on_scoreManager ScoreManager.getScore e w =
  (Normal (mkScoreData (currentScore (scoreManager e)) (highScore (scoreManager e))
             (snakeLength (scoreManager e)) (foodEaten (scoreManager e))
             (gameTime (scoreManager e))), e, w).
Proof.
  unfold GameEngine.on_scoreManager, on_field, ScoreManager.getScore, bind, this, ret.
  simpl. by rewrite set_scoreManager_same.
Qed.

Lemma on_scoreManager_getCurrentScore (e : GameEngine) (w : World) :
  GameEngine.on_scoreManager ScoreManager.getCurrentScore e w =
  (Normal (currentScore (scoreManager e)), e, w).
Proof.
  unfold GameEngine.on_scoreManager, on_field, ScoreManager.getCurrentScore,
    bind, this, ret.
  simpl. by rewrite set_scoreManager_same.
Qed.

Lemma Storage_set_run {S} (st : Storage) (key : string) (v : Stored) (s : S)
    (w : World) :
  exists w', Storage.set st key v s w = (Normal tt, s, w') /\
             emitted w' = emitted w.
Proof.
  unfold Storage.set, world_update. eexists. split; [reflexivity|].
  by destruct (storage_available w).
Qed.

Lemma getTotalGames_run (m : ScoreManager) (w : World) :
  exists n, ScoreManager.getTotalGames m w = (Normal n, m, w).
Proof.
  unfold ScoreManager.getTotalGames, Storage.get, bind, this, world_read, ret.
  destruct (if storage_available w then _ else _) as [[n|hs lp total]|];
    by eexists.
Qed.

Lemma saveHighScore_run (m : ScoreManager) (w : World) :
  exists w', ScoreManager.saveHighScore m w = (Normal tt, m, w') /\
             emitted w' = emitted w.
Proof.
  unfold ScoreManager.saveHighScore, ScoreManager.saveGameStats.
  unfold bind at 1, this at 1. unfold bind at 1.
  destruct (Storage_set_run (storage m) ScoreManager.HIGH_SCORE_KEY
              (StoredNumber (highScore m)) m w) as (w1 & -> & Hw1).
  unfold bind at 1, this at 1. unfold bind at 1, Date_toISOString at 1.
  unfold bind at 1.
  destruct (getTotalGames_run m (set_dates_used (Datatypes.S (dates_used w1)) w1))
    as (n & ->).
  edestruct (Storage_set_run (S:=ScoreManager) (storage m) ScoreManager.STATS_KEY)
    as (w2 & -> & Hw2).
  exists w2. split; [done|]. by rewrite Hw2.
Qed.

Lemma cancelFrame_run (e : GameEngine) (w : World) :
  exists w', GameEngine.cancelFrame e w =
             (Normal tt,
              GameEngine.set_animationFrameId (cleared_frame (animationFrameId e)) e,
              w') /\
             emitted w' = emitted w.
Proof.
  unfold GameEngine.cancelFrame, cleared_frame, bind, this, ret. simpl.
  destruct (animationFrameId e) as [id|] eqn:Hid.
  - destruct (decide (id = 0)).
    + exists w. split; [|done]. destruct e; simpl in *. by rewrite Hid.
    + eexists. split; reflexivity.
  - exists w. split; [|done]. destruct e; simpl in *. by rewrite Hid.
Qed.

Lemma gameOver_run (e : GameEngine) (w : World) :
  exists w', GameEngine.gameOver e w = (Normal tt, ended e, w') /\
             emitted w' = emitted w ++ [game_over (score_data (scoreManager e))].
Proof.
  unfold GameEngine.gameOver, bind, assign.
  unfold GameEngine.on_scoreManager at 1. unfold on_field.
  destruct (saveHighScore_run (scoreManager (GameEngine.set_gameState GAME_OVER e)) w)
    as (w1 & -> & Hw1).
  rewrite set_scoreManager_same.
  destruct (cancelFrame_run (GameEngine.set_gameState GAME_OVER e) w1)
    as (w2 & -> & Hw2).
  rewrite on_scoreManager_getScore. unfold emit, world_update.
  eexists. split; [reflexivity|]. simpl. by rewrite Hw2, Hw1.
Qed.

Lemma createRandomFood_run {S} (cfg : GameConfig) (p : option Position)
    (s : S) (w : World) :
  exists f w', Food.createRandomFood cfg p s w = (Normal f, s, w') /\
               food_position f = p /\ emitted w' = emitted w.
Proof.
  unfold Food.createRandomFood, bind, Math_random, ret. simpl.
  eexists _, _. split; [reflexivity|]. done.
Qed.

Lemma spawnNewFood_full (e : GameEngine) (w : World) :
  GameBoard.getEmptyPositionsExcludingSnake (gameBoard e) (segments (snake e)) = [] ->
  GameEngine.spawnNewFood e w = GameEngine.gameOver e w.
Proof.
  intros Hnil. unfold GameEngine.spawnNewFood. unfold bind at 1.
  rewrite on_snake_getSegments. unfold bind at 1, this at 1.
  rewrite Hnil. reflexivity.
Qed.

Lemma spawnNewFood_free (e : GameEngine) (w : World) :
  GameBoard.getEmptyPositionsExcludingSnake (gameBoard e) (segments (snake e)) <> [] ->
  exists f p w',
    GameEngine.spawnNewFood e w = (Normal tt, GameEngine.set_food f e, w') /\
    food_position f = Some p /\
    p ∈ GameBoard.getEmptyPositionsExcludingSnake (gameBoard e) (segments (snake e)) /\
    emitted w' = emitted w ++ [food_spawn f].
Proof.
  intros Hne. unfold GameEngine.spawnNewFood. unfold bind at 1.
  rewrite on_snake_getSegments. unfold bind at 1, this at 1.
  set (free := GameBoard.getEmptyPositionsExcludingSnake _ _) in *.
  rewrite decide_False by (by destruct free).
  unfold bind at 1, Math_random at 1.
  destruct (random_pick_elem free (randoms w (randoms_used w)) Hne) as (p & Hp & Hin).
  rewrite Hp. unfold bind at 1.
  edestruct (createRandomFood_run (config e) (Some p) e) as (f & w1 & -> & Hf & Hw1).
  exists f, p. eexists. split; [reflexivity|]. simpl.
  split; [done|]. split; [done|]. by rewrite Hw1.
Qed.

(** C2: [respawn] throws exactly when the list of available positions is
    empty; otherwise it returns with the food at a position of the list,
    its type untouched, so that a list without snake cells never puts the
    food on a segment.  The engine's [spawnNewFood] likewise places the
    new food on one of the free cells it has enumerated, none of which is
    a cell of the snake. *)
Theorem respawn_picks_free_cell (f : Food) (availablePositions : list Position)
    (e : GameEngine) (w : World) :
  ((exists exn, completion_of (Food.respawn availablePositions f w) = Throw exn)
   <-> availablePositions = []) /\
  (availablePositions <> [] ->
   exists p,
     completion_of (Food.respawn availablePositions f w) = Normal tt /\
     food_position (state_of (Food.respawn availablePositions f w)) = Some p /\
     p ∈ availablePositions /\
     food_type (state_of (Food.respawn availablePositions f w)) = food_type f /\
     forall segs : list SnakeSegment,
       (forall q, q ∈ availablePositions -> q ∉ position <$> segs) ->
       p ∉ position <$> segs) /\
  (GameBoard.getEmptyPositionsExcludingSnake (gameBoard e) (segments (snake e)) <> [] ->
   exists p,
     completion_of (GameEngine.spawnNewFood e w) = Normal tt /\
     food_position (food (state_of (GameEngine.spawnNewFood e w))) = Some p /\
     p ∈ GameBoard.getEmptyPositionsExcludingSnake (gameBoard e) (segments (snake e)) /\
     p ∉ position <$> segments (snake (state_of (GameEngine.spawnNewFood e w)))).
Proof.
  rewrite respawn_run. split; [|split].
  - destruct availablePositions as [|a l]; simpl.
    + split; [done|]. intros _. by eexists.
    + split; [|done]. by intros [exn [=]].
  - intros Hne. rewrite decide_False by (by destruct availablePositions).
    destruct (random_pick_elem availablePositions (randoms w (randoms_used w)) Hne)
      as (p & Hp & Hin).
    exists p. unfold completion_of, state_of. simpl. rewrite Hp.
    repeat split; try done. intros segs Hfree. by apply Hfree.
  - intros Hne.
    destruct (spawnNewFood_free e w Hne) as (f' & p & w' & -> & Hf' & Hin & _).
    exists p. unfold completion_of, state_of. simpl.
    repeat split; try done. by apply free_cell_clear in Hin as [_ ?].
Qed.

Lemma respawn_picks_free_cell_witness :
  [mkPosition 1 1; mkPosition 2 2] <> [] /\
  exists p,
    completion_of (Food.respawn [mkPosition 1 1; mkPosition 2 2]
                     (mkFood (Some (mkPosition 5 5)) REGULAR 10) example_world)
    = Normal tt /\
    food_position (state_of (Food.respawn [mkPosition 1 1; mkPosition 2 2]
                               (mkFood (Some (mkPosition 5 5)) REGULAR 10) example_world))
    = Some p /\
    p ∈ [mkPosition 1 1; mkPosition 2 2].
Proof.
  split; [discriminate|].
  destruct (proj1 (proj2 (respawn_picks_free_cell
                            (mkFood (Some (mkPosition 5 5)) REGULAR 10)
                            [mkPosition 1 1; mkPosition 2 2]
                            (mkEngine example_config example_snake
                               (mkFood (Some (mkPosition 5 5)) REGULAR 10)
                               (mkGameBoard 10) example_scoreManager PLAYING 0%Q None)
                            example_world)))
    as (p & Hc & Hp & Hin & _); [discriminate|].
  exists p. split; [exact Hc|]. split; [exact Hp|exact Hin].
Defined.

(** ** Running the monad *)

Lemma bind_run {S A B} (m : JS S A) (k : A -> JS S B) s w a s' w' :
  m s w = (Normal a, s', w') -> bind m k s w = k a s' w'.
Proof. unfold bind. by intros ->. Qed.

Lemma bind_throw {S A B} (m : JS S A) (k : A -> JS S B) s w exn s' w' :
  m s w = (Throw exn, s', w') -> bind m k s w = (Throw exn, s', w').
Proof. unfold bind. by intros ->. Qed.

Lemma this_run {S} (s : S) (w : World) : this s w = (Normal s, s, w).
Proof. reflexivity. Qed.

Lemma assign_run {S} (f : S -> S) (s : S) (w : World) :
  assign f s w = (Normal tt, f s, w).
Proof. reflexivity. Qed.

Lemma equals_true (p q : Position) : Position.equals p q = true <-> p = q.
Proof.
  unfold Position.equals. rewrite andb_true_iff, !bool_decide_eq_true.
  destruct p, q; simpl. split; [by intros [-> ->]|by intros [= -> ->]].
Qed.

Lemma equals_false (p q : Position) : Position.equals p q = false <-> p <> q.
Proof.
  rewrite <- equals_true. destruct (Position.equals p q); split; congruence.
Qed.

(** ** One tick of the engine *)

Lemma on_snake_move_cons (e : GameEngine) (w : World) head rest :
  segments (snake e) = head :: rest ->
  GameEngine.on_snake Snake.move e w
  = (Normal tt, GameEngine.set_snake (moved_snake (snake e) head rest) e, w).
Proof.
  intros Hs. unfold GameEngine.on_snake, on_field. by rewrite (move_cons _ _ _ _ Hs).
Qed.

Lemma on_snake_move_nil (e : GameEngine) (w : World) :
  segments (snake e) = [] ->
  GameEngine.on_snake Snake.move e w
  = (Throw TypeError,
     GameEngine.set_snake (Snake.set_direction (nextDirection (snake e)) (snake e)) e, w).
Proof.
  intros Hs. unfold GameEngine.on_snake, on_field. by rewrite (move_nil _ _ Hs).
Qed.

Lemma checkCollisions_run (e : GameEngine) (w : World) head rest :
  segments (snake e) = head :: rest ->
  GameEngine.checkCollisions e w =
  if GameBoard.isOutOfBounds (gameBoard e) (position head)
     || existsb (fun segment => Position.equals (position segment) (position head)) rest
  then GameEngine.gameOver e w
  else (Normal tt, e, w).
Proof.
  intros Hs. unfold GameEngine.checkCollisions.
  erewrite bind_run by (rewrite on_snake_getHeadPosition, Hs; reflexivity).
  erewrite bind_run by apply this_run.
  destruct (GameBoard.isOutOfBounds (gameBoard e) (position head)); [done|].
  erewrite bind_run by (rewrite on_snake_hasSelfCollision, Hs; reflexivity).
  simpl. by destruct (existsb _ rest).
Qed.

Lemma checkFoodConsumption_undefined (e : GameEngine) (w : World) head rest :
  segments (snake e) = head :: rest ->
  food_position (food e) = None ->
  GameEngine.checkFoodConsumption e w = (Throw TypeError, e, w).
Proof.
  intros Hs Hfood. unfold GameEngine.checkFoodConsumption.
  erewrite bind_run by (rewrite on_snake_getHeadPosition, Hs; reflexivity).
  erewrite bind_run by apply on_food_getPosition.
  by rewrite Hfood.
Qed.

Lemma checkFoodConsumption_miss (e : GameEngine) (w : World) head rest q :
  segments (snake e) = head :: rest ->
  food_position (food e) = Some q ->
  position head <> q ->
  GameEngine.checkFoodConsumption e w = (Normal tt, e, w).
Proof.
  intros Hs Hfood Hne. unfold GameEngine.checkFoodConsumption.
  erewrite bind_run by (rewrite on_snake_getHeadPosition, Hs; reflexivity).
  erewrite bind_run by apply on_food_getPosition.
  rewrite Hfood. apply equals_false in Hne. by rewrite Hne.
Qed.

Lemma on_scoreManager_run {A} (m : JS ScoreManager A) (e : GameEngine) (w : World) :
  exists c sm' w',
    GameEngine.on_scoreManager m e w = (c, GameEngine.set_scoreManager sm' e, w') /\
    m (scoreManager e) w = (c, sm', w').
Proof.
  unfold GameEngine.on_scoreManager, on_field.
  destruct (m (scoreManager e) w) as [[c sm'] w']. by exists c, sm', w'.
Qed.

Lemma updateTimer_run (m : ScoreManager) (w : World) :
  exists t w',
    ScoreManager.updateTimer m w = (Normal tt, ScoreManager.set_gameTime t m, w') /\
    emitted w' = emitted w.
Proof.
  unfold ScoreManager.updateTimer, bind, this, performance_now, assign, ret.
  destruct (Qlt_le_dec 0 (gameStartTime m)).
  - eexists _, _. split; [reflexivity|done].
  - exists (gameTime m), w. split; [|done]. by destruct m.
Qed.

Lemma updateScore_run (e : GameEngine) (w : World) :
  exists t w',
    GameEngine.updateScore e w =
    (Normal tt,
     GameEngine.set_scoreManager
       (ScoreManager.set_snakeLength (Z.of_nat (length (segments (snake e))))
          (ScoreManager.set_gameTime t (scoreManager e))) e, w') /\
    emitted w' = emitted w ++
      [score_update
         (score_data (ScoreManager.set_snakeLength (Z.of_nat (length (segments (snake e))))
                        (ScoreManager.set_gameTime t (scoreManager e))))].
Proof.
  destruct (updateTimer_run (scoreManager e) w) as (t & w1 & Htimer & Hw1).
  exists t. eexists. unfold GameEngine.updateScore.
  erewrite bind_run
    by (unfold GameEngine.on_scoreManager, on_field; rewrite Htimer; reflexivity).
  erewrite bind_run by apply on_snake_getLength.
  erewrite bind_run by reflexivity.
  erewrite bind_run by apply on_scoreManager_getScore.
  split; [reflexivity|]. simpl. by rewrite Hw1.
Qed.

Lemma elem_of_removelast {A} (l : list A) (a : A) : a ∈ removelast l -> a ∈ l.
Proof.
  induction l as [|b l IH]; [done|]. simpl.
  destruct l as [|c l]; [by intros ?%elem_of_nil|].
  intros [->|Hin]%elem_of_cons; [left|right; by apply IH].
Qed.

Lemma moved_body_positions (p q : Position) head rest first body :
  moved_segments p head rest = first :: body ->
  q ∈ position <$> body -> q ∈ position <$> (head :: rest).
Proof.
  unfold moved_segments. intros [= _ <-]. destruct rest as [|a rest].
  - by intros ?%elem_of_nil.
  - intros (seg & -> & Hseg)%list_elem_of_fmap. apply list_elem_of_fmap.
    apply elem_of_cons in Hseg as [->|Hseg].
    + exists head. split; [done|left].
    + exists seg. split; [done|right]. by apply elem_of_removelast.
Qed.

Lemma moved_positions_subset (p q : Position) head rest :
  q ∈ position <$> moved_segments p head rest ->
  q = p \/ q ∈ position <$> (head :: rest).
Proof.
  unfold moved_segments. rewrite fmap_cons.
  intros [->|Hin]%elem_of_cons; [by left|right].
  eapply (moved_body_positions p q head rest); [reflexivity|exact Hin].
Qed.

Lemma existsb_equals_elem (p : Position) (l : list SnakeSegment) :
  existsb (fun segment => Position.equals (position segment) p) l = true
  <-> p ∈ position <$> l.
Proof.
  rewrite existsb_exists, list_elem_of_fmap. split.
  - intros (seg & Hin & <-%equals_true). exists seg.
    split; [done|]. by apply list_elem_of_In.
  - intros (seg & -> & Hin). exists seg.
    split; [by apply list_elem_of_In|]. by apply equals_true.
Qed.

(** The tick of a playing engine whose food is clear of the snake, when
    the moved snake has hit a wall or itself. *)
Lemma update_collision (e : GameEngine) (w : World) (deltaTime : Q) head rest :
  food_clear e ->
  gameState e = PLAYING ->
  segments (snake e) = head :: rest ->
  let moved := moved_snake (snake e) head rest in
  (exists p body,
     segments moved = mkSegment p true :: body /\
     (GameBoard.isOutOfBounds (gameBoard e) p
      || existsb (fun segment => Position.equals (position segment) p) body) = true) ->
  let r := GameEngine.update deltaTime e w in
  gameState (state_of r) = GAME_OVER /\
  snake (state_of r) = moved /\
  food (state_of r) = food e /\
  currentScore (scoreManager (state_of r)) = currentScore (scoreManager e) /\
  highScore (scoreManager (state_of r)) = highScore (scoreManager e) /\
  foodEaten (scoreManager (state_of r)) = foodEaten (scoreManager e) /\
  exists evs,
    emitted (world_of r)
    = emitted w ++ game_over (score_data (scoreManager e)) :: evs /\
    Forall (fun ev => food_event ev = false) evs.
Proof.
  intros Hclear Hplay Hs moved (p & body & Hmoved & Hhit) r. subst r.
  unfold GameEngine.update.
  erewrite bind_run by apply this_run.
  rewrite decide_False by (intros Hne; by apply Hne).
  erewrite bind_run by (by apply on_snake_move_cons).
  fold moved. set (e1 := GameEngine.set_snake moved e).
  assert (Hs1 : segments (snake e1) = mkSegment p true :: body) by exact Hmoved.
  destruct (gameOver_run e1 w) as (w2 & Hover & Hev2).
  erewrite bind_run
    by (rewrite (checkCollisions_run e1 w _ _ Hs1); simpl; rewrite Hhit; exact Hover).
  assert (Hs2 : segments (snake (ended e1)) = mkSegment p true :: body) by exact Hmoved.
  destruct (food_position (food e)) as [q|] eqn:Hfood.
  - assert (Hq : p <> q).
    { destruct (Hclear q Hfood) as [Hin Hfree]. intros <-.
      apply orb_true_iff in Hhit as [Hout|Hself].
      - congruence.
      - apply Hfree. apply existsb_equals_elem in Hself. rewrite Hs.
        eapply moved_body_positions; [exact Hmoved|exact Hself]. }
    erewrite bind_run
      by (by eapply (checkFoodConsumption_miss (ended e1) w2 _ _ q Hs2)).
    destruct (updateScore_run (ended e1) w2) as (t & w3 & Hscore & Hev3).
    erewrite bind_run by exact Hscore.
    erewrite bind_run
      by (eapply (on_snake_getHeadPosition_cons _ _ (mkSegment p true) body);
          exact Hmoved).
    unfold emit, world_update, state_of, world_of. simpl.
    repeat (split; [done|]).
    eexists. rewrite Hev3, Hev2. rewrite <- !app_assoc. simpl.
    split; [reflexivity|]. by repeat constructor.
  - erewrite bind_throw
      by (by eapply (checkFoodConsumption_undefined (ended e1) w2 _ _ Hs2)).
    unfold state_of, world_of. simpl.
    repeat (split; [done|]).
    exists []. by rewrite Hev2.
Qed.

(** ** Triples *)

Lemma triple_ret {A} (P : GameEngine -> Prop) (a : A) Q E :
  (forall e, P e -> Q a e) -> triple P (ret a) Q E.
Proof. intros HQ e w HP. by apply HQ. Qed.

Lemma triple_bind {A B} P (m : JS GameEngine A) (k : A -> JS GameEngine B) Q R E :
  triple P m Q E -> (forall a, triple (Q a) (k a) R E) -> triple P (bind m k) R E.
Proof.
  intros Hm Hk e w HP. specialize (Hm e w HP). unfold bind.
  destruct (m e w) as [[[a|exn] e'] w']; [|done].
  by apply Hk.
Qed.

Lemma triple_conseq {A} (P P' : GameEngine -> Prop) (m : JS GameEngine A)
    (Q Q' : A -> GameEngine -> Prop) (E E' : GameEngine -> Prop) :
  triple P' m Q' E' ->
  (forall e, P e -> P' e) -> (forall a e, Q' a e -> Q a e) ->
  (forall e, E' e -> E e) ->
  triple P m Q E.
Proof.
  intros Hm HP HQ HE e w He. specialize (Hm e w (HP e He)).
  destruct (m e w) as [[[a|exn] e'] w']; auto.
Qed.

Lemma triple_this P E : triple P this (fun a e => a = e /\ P e) E.
Proof. by intros e w HP. Qed.

Lemma triple_assign (P : GameEngine -> Prop) f (Q : unit -> GameEngine -> Prop) E :
  (forall e, P e -> Q tt (f e)) -> triple P (assign f) Q E.
Proof. intros HQ e w HP. by apply HQ. Qed.

Lemma same_game_refl (e : GameEngine) : same_game e e.
Proof. by repeat split. Qed.

Lemma same_game_trans (e1 e2 e3 : GameEngine) :
  same_game e1 e2 -> same_game e2 e3 -> same_game e1 e3.
Proof. unfold same_game. intros (?&?&?&?&?) (?&?&?&?&?). repeat split; congruence. Qed.

Lemma food_clear_stable : game_stable food_clear.
Proof.
  intros e e' (Hsnake & Hfood & Hboard & _) Hclear p.
  rewrite Hsnake, Hfood, Hboard. apply Hclear.
Qed.

Lemma engine_inv_stable : game_stable engine_inv.
Proof.
  intros e e' Hsame Hinv Hstate. eapply food_clear_stable; [done|].
  apply Hinv. destruct Hsame as (_ & _ & _ & <- & _). done.
Qed.

Lemma keeps_triple {A} (m : JS GameEngine A) (P : GameEngine -> Prop) :
  keeps_game m -> game_stable P -> triple P m (fun _ => P) P.
Proof.
  intros Hkeep Hstable e w HP. specialize (Hkeep e w). unfold state_of in Hkeep.
  destruct (m e w) as [[[a|exn] e'] w']; simpl in Hkeep; by eapply Hstable.
Qed.

Lemma keeps_bind {A B} (m : JS GameEngine A) (k : A -> JS GameEngine B) :
  keeps_game m -> (forall a, keeps_game (k a)) -> keeps_game (bind m k).
Proof.
  intros Hm Hk e w. specialize (Hm e w). unfold bind, state_of in *.
  destruct (m e w) as [[[a|exn] e'] w']; simpl in *; [|done].
  eapply same_game_trans; [exact Hm|]. apply Hk.
Qed.

Lemma keeps_ret {A} (a : A) : keeps_game (ret a).
Proof. intros e w. apply same_game_refl. Qed.

Lemma keeps_this : keeps_game this.
Proof. intros e w. apply same_game_refl. Qed.

Lemma keeps_world_read {A} (f : World -> A) : keeps_game (world_read f).
Proof. intros e w. apply same_game_refl. Qed.

Lemma keeps_world_update (f : World -> World) : keeps_game (world_update f).
Proof. intros e w. apply same_game_refl. Qed.

Lemma keeps_emit (ev : Event) : keeps_game (emit ev).
Proof. intros e w. apply same_game_refl. Qed.

Lemma keeps_performance_now : keeps_game performance_now.
Proof. intros e w. apply same_game_refl. Qed.

Lemma keeps_requestAnimationFrame : keeps_game requestAnimationFrame.
Proof. intros e w. apply same_game_refl. Qed.

Lemma keeps_cancelAnimationFrame (id : Z) : keeps_game (cancelAnimationFrame id).
Proof. intros e w. apply same_game_refl. Qed.

Lemma keeps_on_scoreManager {A} (m : JS ScoreManager A) :
  keeps_game (GameEngine.on_scoreManager m).
Proof.
  intros e w. destruct (on_scoreManager_run m e w) as (c & sm' & w' & -> & _).
  by repeat split.
Qed.

Lemma keeps_set_lastUpdateTime (t : Q) :
  keeps_game (assign (GameEngine.set_lastUpdateTime t)).
Proof. intros e w. by repeat split. Qed.

Lemma keeps_set_animationFrameId (o : option Z) :
  keeps_game (assign (GameEngine.set_animationFrameId o)).
Proof. intros e w. by repeat split. Qed.

Lemma keeps_cancelFrame : keeps_game GameEngine.cancelFrame.
Proof.
  intros e w. destruct (cancelFrame_run e w) as (w' & -> & _). by repeat split.
Qed.

Lemma keeps_getLength : keeps_game (GameEngine.on_snake Snake.getLength).
Proof. intros e w. rewrite on_snake_getLength. apply same_game_refl. Qed.

Lemma keeps_getHeadPosition : keeps_game (GameEngine.on_snake Snake.getHeadPosition).
Proof.
  intros e w. rewrite on_snake_getHeadPosition.
  destruct (segments (snake e)); apply same_game_refl.
Qed.

Lemma keeps_updateScore : keeps_game GameEngine.updateScore.
Proof.
  unfold GameEngine.updateScore.
  apply keeps_bind; [apply keeps_on_scoreManager|intros _].
  apply keeps_bind; [apply keeps_getLength|intros len].
  apply keeps_bind; [apply keeps_on_scoreManager|intros _].
  apply keeps_bind; [apply keeps_on_scoreManager|intros score].
  apply keeps_emit.
Qed.

Lemma keeps_update_tail :
  keeps_game (GameEngine.updateScore ;;;
              let! headPosition := GameEngine.on_snake Snake.getHeadPosition in
              emit (snake_move headPosition)).
Proof.
  apply keeps_bind; [apply keeps_updateScore|intros _].
  apply keeps_bind; [apply keeps_getHeadPosition|intros p]. apply keeps_emit.
Qed.

(** ** The invariant of the engine *)

Lemma on_snake_grow_cons (e : GameEngine) (w : World) head rest :
  segments (snake e) = head :: rest ->
  GameEngine.on_snake Snake.grow e w
  = (Normal tt,
     GameEngine.set_snake
       (Snake.set_segments
          (segments (snake e) ++ [mkSegment (position (List.last rest head)) false])
          (snake e)) e, w).
Proof.
  intros Hs. unfold GameEngine.on_snake, on_field. by rewrite (grow_cons _ _ _ _ Hs).
Qed.

Lemma on_scoreManager_addPoints (e : GameEngine) (w : World) (points : Z) :
  exists sm',
    GameEngine.on_scoreManager (ScoreManager.addPoints points) e w
    = (Normal tt, GameEngine.set_scoreManager sm' e, w).
Proof.
  unfold GameEngine.on_scoreManager, on_field. rewrite addPoints_run. by eexists.
Qed.

Lemma engine_inv_ended (e : GameEngine) : engine_inv (ended e).
Proof. intros [Hstate|Hstate]; discriminate Hstate. Qed.

Lemma food_clear_inv (e : GameEngine) : food_clear e -> engine_inv e.
Proof. by intros Hclear _. Qed.

Lemma spawnNewFood_inv (e : GameEngine) (w : World) :
  engine_inv (state_of (GameEngine.spawnNewFood e w)).
Proof.
  destruct (decide (GameBoard.getEmptyPositionsExcludingSnake (gameBoard e)
                      (segments (snake e)) = [])) as [Hfull|Hfree].
  - rewrite (spawnNewFood_full e w Hfull).
    destruct (gameOver_run e w) as (w' & -> & _). apply engine_inv_ended.
  - destruct (spawnNewFood_free e w Hfree) as (f & p & w' & -> & Hf & Hin & _).
    apply food_clear_inv. intros q. unfold state_of. simpl. rewrite Hf.
    intros [= <-]. by apply free_cell_clear.
Qed.

Lemma checkFoodConsumption_inv (e : GameEngine) (w : World) head rest :
  segments (snake e) = head :: rest ->
  food_off_body e ->
  engine_inv (state_of (GameEngine.checkFoodConsumption e w)).
Proof.
  intros Hs Hbody.
  destruct (food_position (food e)) as [q|] eqn:Hfood.
  - destruct (decide (position head = q)) as [Heq|Hne].
    + unfold GameEngine.checkFoodConsumption.
      erewrite bind_run by (by eapply on_snake_getHeadPosition_cons).
      erewrite bind_run by apply on_food_getPosition.
      rewrite Hfood. apply equals_true in Heq. rewrite Heq.
      erewrite bind_run by (by eapply on_snake_grow_cons).
      erewrite bind_run by apply on_food_getPoints.
      edestruct on_scoreManager_addPoints as (sm1 & Hadd).
      erewrite bind_run by exact Hadd.
      erewrite bind_run by reflexivity.
      erewrite bind_run by apply on_snake_getLength.
      erewrite bind_run by reflexivity.
      erewrite bind_run by apply this_run.
      erewrite bind_run by apply on_scoreManager_getCurrentScore.
      erewrite bind_run by reflexivity.
      apply spawnNewFood_inv.
    + rewrite (checkFoodConsumption_miss e w head rest q Hs Hfood Hne).
      apply food_clear_inv. intros q'. unfold state_of. simpl.
      rewrite Hfood. intros [= <-]. destruct (Hbody q Hfood) as [Hin Hfree].
      split; [done|]. rewrite Hs in *. simpl in Hfree. rewrite fmap_cons.
      intros [Hhead|Hrest]%elem_of_cons; [by apply Hne|by apply Hfree].
  - rewrite (checkFoodConsumption_undefined e w head rest Hs Hfood).
    apply food_clear_inv. intros q'. unfold state_of. simpl. by rewrite Hfood.
Qed.

Lemma update_inv (deltaTime : Q) :
  triple engine_inv (GameEngine.update deltaTime) (fun _ => engine_inv) engine_inv.
Proof.
  cut (forall e w, engine_inv e ->
         engine_inv (state_of (GameEngine.update deltaTime e w))).
  { intros Hcut e w Hinv. specialize (Hcut e w Hinv). unfold state_of in Hcut.
    by destruct (GameEngine.update deltaTime e w) as [[[a|exn] e'] w']. }
  intros e w Hinv. unfold GameEngine.update.
  erewrite bind_run by apply this_run.
  destruct (decide (gameState e ≠ PLAYING)) as [Hother|Hplay]; [done|].
  assert (Hclear : food_clear e).
  { apply Hinv. left. by destruct (decide (gameState e = PLAYING)). }
  destruct (segments (snake e)) as [|head rest] eqn:Hs.
  - erewrite bind_throw by (by apply on_snake_move_nil).
    apply food_clear_inv. intros q. unfold state_of. simpl. rewrite Hs.
    intros Hq. destruct (Hclear q Hq) as [Hin _]. split; [done|].
    by intros ?%elem_of_nil.
  - erewrite bind_run by (by apply on_snake_move_cons).
    set (moved := moved_snake (snake e) head rest).
    set (e1 := GameEngine.set_snake moved e).
    destruct (segments moved) as [|first body] eqn:Hmoved; [done|].
    assert (Hbody1 : food_off_body e1).
    { intros q Hq. destruct (Hclear q Hq) as [Hin Hfree]. split; [done|].
      change (segments (snake e1)) with (segments moved). rewrite Hmoved.
      simpl. intros Hb. apply Hfree.
      rewrite Hs. eapply moved_body_positions; [exact Hmoved|exact Hb]. }
    assert (exists e2 w2,
              GameEngine.checkCollisions e1 w = (Normal tt, e2, w2) /\
              segments (snake e2) = first :: body /\ food_off_body e2)
      as (e2 & w2 & Hcheck & Hs2 & Hbody2).
    { rewrite (checkCollisions_run e1 w first body Hmoved).
      destruct (_ || _).
      - destruct (gameOver_run e1 w) as (w2 & -> & _).
        exists (ended e1), w2. split; [done|]. split; [exact Hmoved|exact Hbody1].
      - exists e1, w. split; [done|]. split; [exact Hmoved|exact Hbody1]. }
    erewrite bind_run by exact Hcheck.
    pose proof (checkFoodConsumption_inv e2 w2 first body Hs2 Hbody2) as Hfood.
    unfold bind at 1. unfold state_of in Hfood.
    destruct (GameEngine.checkFoodConsumption e2 w2) as [[[[]|exn] e3] w3];
      simpl in Hfood; [|done].
    eapply engine_inv_stable; [|exact Hfood]. apply keeps_update_tail.
Qed.

Lemma keeps_inv {A} (m : JS GameEngine A) :
  keeps_game m -> triple engine_inv m (fun _ => engine_inv) engine_inv.
Proof. intros Hkeep. apply keeps_triple; [done|apply engine_inv_stable]. Qed.

Lemma triple_this_weak (P : GameEngine -> Prop) E :
  triple P this (fun _ => P) E.
Proof. by intros e w HP. Qed.

Lemma gameLoop_inv :
  triple engine_inv GameEngine.gameLoop (fun _ => engine_inv) engine_inv.
Proof.
  unfold GameEngine.gameLoop.
  eapply triple_bind; [apply triple_this_weak|]. intros e0.
  destruct (decide (gameState e0 ≠ PLAYING)); [by apply triple_ret|].
  eapply triple_bind; [apply keeps_inv, keeps_performance_now|].
  intros currentTime. cbv zeta.
  eapply triple_bind.
  { destruct (Qle_bool _ _).
    - eapply triple_bind; [apply update_inv|]. intros ?.
      apply keeps_inv, keeps_set_lastUpdateTime.
    - by apply triple_ret. }
  intros ?. eapply triple_bind; [apply keeps_inv, keeps_requestAnimationFrame|].
  intros id. apply keeps_inv, keeps_set_animationFrameId.
Qed.

Lemma createInitialFood_run (e : GameEngine) (w : World) :
  exists f w',
    GameEngine.createInitialFood e w = (Normal f, e, w') /\
    (forall p, food_position f = Some p ->
       p ∈ GameBoard.getEmptyPositionsExcludingSnake (gameBoard e) (segments (snake e))) /\
    emitted w' = emitted w.
Proof.
  unfold GameEngine.createInitialFood.
  erewrite bind_run by apply on_snake_getSegments.
  erewrite bind_run by apply this_run.
  erewrite bind_run by reflexivity.
  edestruct (createRandomFood_run (S:=GameEngine) (config e))
    as (f & w' & -> & Hf & Hw').
  exists f, w'. split; [done|]. split; [|by rewrite Hw'].
  intros p. rewrite Hf. apply js_index_elem.
Qed.

Lemma food_clear_fresh (e : GameEngine) (f : Food) :
  (forall p, food_position f = Some p ->
     p ∈ GameBoard.getEmptyPositionsExcludingSnake (gameBoard e) (segments (snake e))) ->
  food_clear (GameEngine.set_food f e).
Proof. intros Hf p Hp. simpl in *. by apply free_cell_clear, Hf. Qed.

Lemma reset_run (e : GameEngine) (w : World) :
  exists e' w',
    GameEngine.reset e w = (Normal tt, e', w') /\
    food_clear e' /\ gameState e' = MENU.
Proof.
  unfold GameEngine.reset.
  erewrite bind_run by reflexivity.
  erewrite bind_run by reflexivity.
  edestruct createInitialFood_run as (f & w1 & Hcreate & Hf & _).
  erewrite bind_run by (erewrite bind_run by exact Hcreate; reflexivity).
  erewrite bind_run by reflexivity.
  edestruct cancelFrame_run as (w2 & Hcancel & _).
  erewrite bind_run by exact Hcancel.
  erewrite bind_run by reflexivity.
  eexists _, _. split; [reflexivity|]. split; [|done].
  exact (food_clear_fresh _ f Hf).
Qed.

Lemma reset_triple :
  triple (fun _ => True) GameEngine.reset (fun _ e => food_clear e /\ gameState e = MENU)
    (fun _ => False).
Proof. intros e w _. by destruct (reset_run e w) as (e' & w' & -> & ? & ?). Qed.

Lemma start_inv :
  triple engine_inv GameEngine.start (fun _ => engine_inv) engine_inv.
Proof.
  unfold GameEngine.start.
  eapply triple_bind; [apply triple_this_weak|]. intros e0.
  destruct (_ && _); [by apply triple_ret|].
  eapply triple_bind.
  { eapply triple_conseq; [apply reset_triple|done|..].
    - intros u e [Hclear _]. exact Hclear.
    - done. }
  intros ?. eapply triple_bind with (Q := fun _ => engine_inv).
  { apply triple_assign. intros e Hclear. apply food_clear_inv. exact Hclear. }
  intros ?. eapply triple_bind.
  { eapply triple_bind; [apply keeps_inv, keeps_performance_now|].
    intros now. apply keeps_inv, keeps_set_lastUpdateTime. }
  intros ?. eapply triple_bind; [apply keeps_inv, keeps_on_scoreManager|].
  intros ?. eapply triple_bind; [apply gameLoop_inv|].
  intros ?. eapply triple_bind; [apply triple_this_weak|].
  intros e1. apply keeps_inv, keeps_emit.
Qed.

Lemma pause_inv :
  triple engine_inv GameEngine.pause (fun _ => engine_inv) engine_inv.
Proof.
  intros e w Hinv. rewrite pause_run. case_decide; [|done].
  apply food_clear_inv. apply Hinv. by left.
Qed.

Lemma resume_inv :
  triple engine_inv GameEngine.resume (fun _ => engine_inv) engine_inv.
Proof.
  unfold GameEngine.resume.
  eapply triple_bind; [apply triple_this|]. intros e0.
  destruct (decide (gameState e0 ≠ PAUSED)) as [Hother|Hpaused].
  { apply triple_ret. by intros e [_ Hinv]. }
  eapply triple_bind with (Q := fun _ => engine_inv).
  { apply triple_assign. intros e [<- Hinv]. apply food_clear_inv.
    apply Hinv. right. by destruct (decide (gameState e0 = PAUSED)). }
  intros ?. eapply triple_bind.
  { eapply triple_bind; [apply keeps_inv, keeps_performance_now|].
    intros now. apply keeps_inv, keeps_set_lastUpdateTime. }
  intros ?. eapply triple_bind; [apply gameLoop_inv|].
  intros ?. eapply triple_bind; [apply keeps_inv, keeps_performance_now|].
  intros now. apply keeps_inv, keeps_emit.
Qed.

Lemma togglePause_inv :
  triple engine_inv GameEngine.togglePause (fun _ => engine_inv) engine_inv.
Proof.
  unfold GameEngine.togglePause.
  eapply triple_bind; [apply triple_this_weak|]. intros e0.
  destruct (decide (gameState e0 = PLAYING)); [apply pause_inv|].
  destruct (decide (gameState e0 = PAUSED)); [apply resume_inv|].
  by apply triple_ret.
Qed.

Lemma stop_inv :
  triple engine_inv GameEngine.stop (fun _ => engine_inv) engine_inv.
Proof.
  intros e w _. destruct (stop_run e w) as (w' & -> & _).
  intros [Hstate|Hstate]; discriminate Hstate.
Qed.

Lemma reset_inv :
  triple engine_inv GameEngine.reset (fun _ => engine_inv) engine_inv.
Proof.
  intros e w _. destruct (reset_run e w) as (e' & w' & -> & Hclear & _).
  by apply food_clear_inv.
Qed.

Lemma on_snake_changeDirection (e : GameEngine) (w : World) (d : Direction) :
  GameEngine.on_snake (Snake.changeDirection d) e w
  = (Normal tt,
     GameEngine.set_snake
       (if bool_decide (d = Snake.opposites (direction (snake e))) then snake e
        else Snake.set_nextDirection d (snake e)) e, w).
Proof.
  unfold GameEngine.on_snake, on_field. by rewrite changeDirection_run.
Qed.

Lemma changeDirection_inv (d : Direction) :
  triple engine_inv (GameEngine.changeDirection d) (fun _ => engine_inv) engine_inv.
Proof.
  unfold GameEngine.changeDirection.
  eapply triple_bind; [apply triple_this_weak|]. intros e0.
  destruct (decide (gameState e0 ≠ PLAYING)); [by apply triple_ret|].
  eapply triple_bind with (Q := fun _ => engine_inv).
  { intros e w Hinv. rewrite on_snake_changeDirection.
    intros Hstate p Hp. destruct (Hinv Hstate p Hp) as [Hin Hfree].
    split; [done|]. simpl. by case_bool_decide. }
  intros ?. apply keeps_inv, keeps_emit.
Qed.

Lemma frameCallback_inv (id : Z) :
  triple engine_inv (GameEngine.frameCallback id) (fun _ => engine_inv) engine_inv.
Proof.
  unfold GameEngine.frameCallback.
  eapply triple_bind; [apply keeps_inv, keeps_world_read|]. intros pending.
  case_decide; [|by apply triple_ret].
  eapply triple_bind; [apply keeps_inv, keeps_world_update|].
  intros ?. apply gameLoop_inv.
Qed.

Lemma engine_call_inv (c : EngineCall) :
  triple engine_inv (engine_call c) (fun _ => engine_inv) engine_inv.
Proof.
  destruct c; simpl.
  - apply start_inv.
  - apply pause_inv.
  - apply resume_inv.
  - apply togglePause_inv.
  - apply stop_inv.
  - apply reset_inv.
  - apply update_inv.
  - apply changeDirection_inv.
  - apply frameCallback_inv.
Qed.

Lemma new_engine_state (cfg : GameConfig) (sm : ScoreManager) (w w' : World)
    (e : GameEngine) :
  GameEngine.new cfg sm tt w = (Normal e, tt, w') -> gameState e = MENU.
Proof.
  unfold GameEngine.new.
  erewrite bind_run by apply new_snake_run.
  unfold construct.
  edestruct createInitialFood_run as (f & w1 & Hcreate & _).
  erewrite bind_run by exact Hcreate.
  by intros [= <- _].
Qed.

Lemma engine_reachable_inv (e : GameEngine) : engine_reachable e -> engine_inv e.
Proof.
  induction 1 as [cfg sm w w' e Hnew|e c w _ IH].
  - apply new_engine_state in Hnew. intros [Hstate|Hstate]; congruence.
  - pose proof (engine_call_inv c e w IH) as Hcall. unfold state_of.
    by destruct (engine_call c e w) as [[[a|exn] e'] w'].
Qed.

(** ** The collision tick *)

Lemma example_engine_new :
  GameEngine.new example_config (mkScoreManager 0 0 3 0 0 0 (mkStorage "snake-game-"))
    tt example_world
  = (Normal example_engine, tt,
     set_randoms_used 2 example_world).
Proof. vm_compute. reflexivity. Qed.

Lemma engine_calls_reachable (cs : list EngineCall) (e : GameEngine) (w : World) :
  engine_reachable e -> engine_reachable (engine_calls cs e w).1.
Proof.
  revert e w. induction cs as [|c cs IH]; intros e w Hreach; [done|].
  apply (IH (state_of (engine_call c e w)) (world_of (engine_call c e w))).
  by apply engine_reachable_call.
Qed.

Lemma near_wall_engine_reachable : engine_reachable near_wall_engine.
Proof.
  apply engine_calls_reachable.
  exact (engine_reachable_new _ _ _ _ _ example_engine_new).
Qed.

(** C1: take an engine that is playing, reached from its constructor by any
    calls of its methods.  When the move of a tick returns and the moved
    snake is out of bounds or on itself, [update] leaves the engine in
    GAME_OVER, and nothing of the food handling has run: the snake is the
    moved one (not grown), the food is the one before, current score, high
    score and food counter are unchanged, and no notification about food
    follows the one about the end of the game. *)
Theorem collision_tick_ends_game (e : GameEngine) (w : World) (deltaTime : Q) :
  engine_reachable e ->
  gameState e = PLAYING ->
  completion_of (Snake.move (snake e) w) = Normal tt ->
  ((exists p,
      completion_of (Snake.getHeadPosition (state_of (Snake.move (snake e) w)) w)
      = Normal p /\
      GameBoard.isOutOfBounds (gameBoard e) p = true)
   \/ completion_of (Snake.hasSelfCollision (state_of (Snake.move (snake e) w)) w)
      = Normal true) ->
  let r := GameEngine.update deltaTime e w in
  gameState (state_of r) = GAME_OVER /\
  snake (state_of r) = state_of (Snake.move (snake e) w) /\
  food (state_of r) = food e /\
  currentScore (scoreManager (state_of r)) = currentScore (scoreManager e) /\
  highScore (scoreManager (state_of r)) = highScore (scoreManager e) /\
  foodEaten (scoreManager (state_of r)) = foodEaten (scoreManager e) /\
  exists evs,
    emitted (world_of r)
    = emitted w ++ game_over (score_data (scoreManager e)) :: evs /\
    Forall (fun ev => food_event ev = false) evs.
Proof.
  intros Hreach Hplay Hmove Hhit.
  assert (Hclear : food_clear e).
  { apply engine_reachable_inv; [done|by left]. }
  destruct (segments (snake e)) as [|head rest] eqn:Hs.
  { rewrite (move_nil _ w Hs) in Hmove. discriminate Hmove. }
  rewrite (move_cons _ w head rest Hs) in Hhit |- *.
  change (state_of (Normal tt, moved_snake (snake e) head rest, w))
    with (moved_snake (snake e) head rest) in *.
  apply (update_collision e w deltaTime head rest Hclear Hplay Hs).
  eexists _, _. split; [reflexivity|].
  apply orb_true_iff.
  destruct Hhit as [(p & Hhead & Hout)|Hself].
  - left. unfold completion_of in Hhead. simpl in Hhead.
    injection Hhead as <-. exact Hout.
  - right. unfold completion_of in Hself. simpl in Hself.
    by injection Hself.
Qed.

Lemma collision_tick_ends_game_witness :
  engine_reachable near_wall_engine /\
  gameState near_wall_engine = PLAYING /\
  completion_of (Snake.move (snake near_wall_engine) near_wall_world) = Normal tt /\
  GameBoard.isOutOfBounds (gameBoard near_wall_engine) (mkPosition 10 5) = true /\
  gameState (state_of (GameEngine.update 100 near_wall_engine near_wall_world))
  = GAME_OVER /\
  food (state_of (GameEngine.update 100 near_wall_engine near_wall_world))
  = food near_wall_engine.
Proof.
  split; [exact near_wall_engine_reachable|].
  split; [vm_compute; reflexivity|].
  split; [vm_compute; reflexivity|].
  split; [vm_compute; reflexivity|].
  destruct (collision_tick_ends_game near_wall_engine near_wall_world 100
              near_wall_engine_reachable)
    as (Hstate & _ & Hfood & _).
  - vm_compute; reflexivity.
  - vm_compute; reflexivity.
  - left. exists (mkPosition 10 5). split; vm_compute; reflexivity.
  - split; [exact Hstate|exact Hfood].
Defined.

(** The invariant is what keeps the food handling off a collision tick:
    [update] has no guard of its own.  On [unreachable_engine], a record
    that no run produces, the snake runs into itself with the food under
    its new head, and the tick ends the game and eats the food. *)
Remark update_without_invariant :
  ~ food_clear unreachable_engine /\
  gameState (state_of (GameEngine.update 100 unreachable_engine example_world))
  = GAME_OVER /\
  foodEaten (scoreManager (state_of (GameEngine.update 100 unreachable_engine
                                       example_world))) = 1 /\
  length (segments (snake (state_of (GameEngine.update 100 unreachable_engine
                                       example_world)))) = 6%nat.
Proof.
  split; [|vm_compute; by repeat split].
  intros Hclear. destruct (Hclear (mkPosition 5 4) eq_refl) as [_ Hfree].
  apply Hfree. vm_compute. do 3 right. left.
Qed.

(** * Further properties of the code *)

(** ** The engine's state machine *)

Lemma containsPosition_run (s : Snake) (w : World) (p : Position) :
  Snake.containsPosition p s w =
  (Normal (existsb (fun segment => Position.equals (position segment) p) (segments s)),
   s, w).
Proof. reflexivity. Qed.

Lemma existsb_equals_false (p : Position) (l : list SnakeSegment) :
  existsb (fun segment => Position.equals (position segment) p) l = false
  <-> p ∉ position <$> l.
Proof.
  rewrite <- existsb_equals_elem.
  destruct (existsb _ l); split; congruence.
Qed.

(** X1: in every engine reached from the constructor, while the game is
    playing or paused, the food (when it has a position) is on a valid
    cell of the board and [containsPosition] of the snake rejects it. *)
Theorem food_off_snake_while_in_play (e : GameEngine) (w : World) (p : Position) :
  engine_reachable e ->
  gameState e = PLAYING \/ gameState e = PAUSED ->
  food_position (food e) = Some p ->
  GameBoard.isValidPosition (gameBoard e) p = true /\
  Snake.containsPosition p (snake e) w = (Normal false, snake e, w).
Proof.
  intros Hreach Hstate Hfood.
  destruct (engine_reachable_inv e Hreach Hstate p Hfood) as [Hin Hfree].
  split.
  - unfold GameBoard.isValidPosition. by rewrite Hin.
  - rewrite containsPosition_run. apply existsb_equals_false in Hfree.
    by rewrite Hfree.
Qed.

Lemma food_off_snake_while_in_play_witness :
  engine_reachable near_wall_engine /\
  (gameState near_wall_engine = PLAYING \/ gameState near_wall_engine = PAUSED) /\
  food_position (food near_wall_engine) = Some (mkPosition 0 0) /\
  GameBoard.isValidPosition (gameBoard near_wall_engine) (mkPosition 0 0) = true /\
  Snake.containsPosition (mkPosition 0 0) (snake near_wall_engine) example_world
  = (Normal false, snake near_wall_engine, example_world).
Proof.
  assert (Hstate : gameState near_wall_engine = PLAYING \/
                   gameState near_wall_engine = PAUSED)
    by (left; vm_compute; reflexivity).
  assert (Hfood : food_position (food near_wall_engine) = Some (mkPosition 0 0))
    by (vm_compute; reflexivity).
  split; [exact near_wall_engine_reachable|]. split; [exact Hstate|].
  split; [exact Hfood|].
  exact (food_off_snake_while_in_play near_wall_engine example_world (mkPosition 0 0)
           near_wall_engine_reachable Hstate Hfood).
Defined.

Lemma update_not_playing (e : GameEngine) (w : World) (deltaTime : Q) :
  gameState e <> PLAYING -> GameEngine.update deltaTime e w = (Normal tt, e, w).
Proof.
  intros Hstate. unfold GameEngine.update.
  erewrite bind_run by apply this_run. by rewrite decide_True.
Qed.

(** X2: a command that the current state does not allow changes nothing,
    neither the engine nor the world (no notification, no reading of the
    clock, no frame requested): [update], [changeDirection], [pause] and
    the game loop outside PLAYING, [resume] outside PAUSED, [start] in
    PLAYING, PAUSED or SETTINGS, [togglePause] in MENU, GAME_OVER or
    SETTINGS. *)
Theorem disallowed_commands_do_nothing (e : GameEngine) (w : World) :
  (gameState e <> PLAYING ->
   (forall deltaTime, GameEngine.update deltaTime e w = (Normal tt, e, w)) /\
   (forall d, GameEngine.changeDirection d e w = (Normal tt, e, w)) /\
   GameEngine.pause e w = (Normal tt, e, w) /\
   GameEngine.gameLoop e w = (Normal tt, e, w)) /\
  (gameState e <> PAUSED -> GameEngine.resume e w = (Normal tt, e, w)) /\
  (gameState e <> MENU -> gameState e <> GAME_OVER ->
   GameEngine.start e w = (Normal tt, e, w)) /\
  (gameState e <> PLAYING -> gameState e <> PAUSED ->
   GameEngine.togglePause e w = (Normal tt, e, w)).
Proof.
  split; [|split; [|split]].
  - intros Hstate. split; [intros dt; by apply update_not_playing|].
    split; [|split].
    + intros d. unfold GameEngine.changeDirection.
      erewrite bind_run by apply this_run. by rewrite decide_True.
    + rewrite pause_run. by rewrite decide_False.
    + unfold GameEngine.gameLoop.
      erewrite bind_run by apply this_run. by rewrite decide_True.
  - intros Hstate. unfold GameEngine.resume.
    erewrite bind_run by apply this_run. by rewrite decide_True.
  - intros Hmenu Hover. unfold GameEngine.start.
    erewrite bind_run by apply this_run.
    by rewrite !bool_decide_eq_true_2.
  - intros Hplay Hpaused. unfold GameEngine.togglePause.
    erewrite bind_run by apply this_run.
    by rewrite !decide_False.
Qed.

Lemma disallowed_commands_do_nothing_witness :
  gameState example_engine <> PLAYING /\
  GameEngine.update 100 example_engine example_world
  = (Normal tt, example_engine, example_world).
Proof.
  split; [discriminate|].
  apply (proj1 (disallowed_commands_do_nothing example_engine example_world)).
  discriminate.
Defined.

(** X3: while playing, [changeDirection] hands the request to the snake
    (which keeps its pending direction when the request is the opposite of
    the current direction) and notifies the listeners of the requested
    direction in either case, also when the snake has dropped it. *)
Theorem changeDirection_while_playing (e : GameEngine) (w : World) (d : Direction) :
  gameState e = PLAYING ->
  GameEngine.changeDirection d e w =
  (Normal tt,
   GameEngine.set_snake
     (if bool_decide (d = Snake.opposites (direction (snake e))) then snake e
      else Snake.set_nextDirection d (snake e)) e,
   set_emitted (emitted w ++ [snake_direction_change d]) w).
Proof.
  intros Hplay. unfold GameEngine.changeDirection.
  erewrite bind_run by apply this_run.
  rewrite decide_False by (intros Hne; by apply Hne).
  erewrite bind_run by apply on_snake_changeDirection.
  reflexivity.
Qed.

Lemma changeDirection_while_playing_witness :
  gameState cruising_engine = PLAYING /\
  emitted (world_of (GameEngine.changeDirection LEFT cruising_engine example_world))
  = [snake_direction_change LEFT] /\
  snake (state_of (GameEngine.changeDirection LEFT cruising_engine example_world))
  = snake cruising_engine.
Proof.
  split; [reflexivity|].
  rewrite (changeDirection_while_playing cruising_engine example_world LEFT eq_refl).
  split; reflexivity.
Defined.

(** X4: with a snake that has no segment (a configured initial length that
    is not positive) every tick of a playing engine throws a [TypeError] out
    of [move]: nothing is notified, the state stays PLAYING, and only the
    snake's direction has taken the pending value. *)
Theorem tick_of_empty_snake_throws (e : GameEngine) (w : World) (deltaTime : Q) :
  gameState e = PLAYING ->
  segments (snake e) = [] ->
  GameEngine.update deltaTime e w =
  (Throw TypeError,
   GameEngine.set_snake (Snake.set_direction (nextDirection (snake e)) (snake e)) e,
   w).
Proof.
  intros Hplay Hs. unfold GameEngine.update.
  erewrite bind_run by apply this_run.
  rewrite decide_False by (intros Hne; by apply Hne).
  by erewrite bind_throw by (by apply on_snake_move_nil).
Qed.

Lemma tick_of_empty_snake_throws_witness :
  gameState (GameEngine.set_snake (mkSnake example_config [] RIGHT UP) cruising_engine)
  = PLAYING /\
  completion_of
    (GameEngine.update 100
       (GameEngine.set_snake (mkSnake example_config [] RIGHT UP) cruising_engine)
       example_world)
  = Throw TypeError.
Proof.
  split; [reflexivity|].
  by rewrite (tick_of_empty_snake_throws
                (GameEngine.set_snake (mkSnake example_config [] RIGHT UP) cruising_engine)
                example_world 100 eq_refl eq_refl).
Defined.

(** ** Ticks that do not collide *)

Lemma move_normal_inv (s : Snake) (w : World) (moved : Snake) :
  Snake.move s w = (Normal tt, moved, w) ->
  exists head rest, segments s = head :: rest /\ moved = moved_snake s head rest.
Proof.
  destruct (segments s) as [|head rest] eqn:Hs.
  - by rewrite (move_nil s w Hs).
  - rewrite (move_cons s w head rest Hs). intros [= <-]. by exists head, rest.
Qed.

Lemma getHeadPosition_inv (s : Snake) (w : World) (p : Position) :
  Snake.getHeadPosition s w = (Normal p, s, w) ->
  exists first body, segments s = first :: body /\ position first = p.
Proof.
  unfold Snake.getHeadPosition, bind, this, ret, throw.
  destruct (segments s) as [|first body]; simpl; [done|].
  intros [= <-]. by exists first, body.
Qed.

Lemma hasSelfCollision_cons (s : Snake) (w : World) first body :
  segments s = first :: body ->
  Snake.hasSelfCollision s w =
  (Normal (existsb (fun segment => Position.equals (position segment) (position first))
             body), s, w).
Proof.
  intros Hs. unfold Snake.hasSelfCollision, bind, this, ret. by rewrite Hs.
Qed.

Lemma checkCollisions_clear (e : GameEngine) (w : World) first body :
  segments (snake e) = first :: body ->
  GameBoard.isOutOfBounds (gameBoard e) (position first) = false ->
  Snake.hasSelfCollision (snake e) w = (Normal false, snake e, w) ->
  GameEngine.checkCollisions e w = (Normal tt, e, w).
Proof.
  intros Hs Hin Hself. rewrite (checkCollisions_run e w first body Hs), Hin.
  rewrite (hasSelfCollision_cons _ w first body Hs) in Hself.
  injection Hself as Hself. by rewrite Hself.
Qed.

(** X5: a tick of a playing engine whose moved snake is on the board, off
    itself and not on the food returns; the engine stays PLAYING with the
    moved snake and the same food, score, high score and food counter; the
    length statistic is set to the snake's length; the listeners get the
    score update and then the move to the new head position, nothing
    else. *)
Theorem plain_tick (e : GameEngine) (w : World) (deltaTime : Q) (moved : Snake)
    (p q : Position) :
  gameState e = PLAYING ->
  Snake.move (snake e) w = (Normal tt, moved, w) ->
  Snake.getHeadPosition moved w = (Normal p, moved, w) ->
  GameBoard.isOutOfBounds (gameBoard e) p = false ->
  Snake.hasSelfCollision moved w = (Normal false, moved, w) ->
  food_position (food e) = Some q ->
  q <> p ->
  exists e' w' sd,
    GameEngine.update deltaTime e w = (Normal tt, e', w') /\
    gameState e' = PLAYING /\ snake e' = moved /\ food e' = food e /\
    length (segments moved) = length (segments (snake e)) /\
    currentScore (scoreManager e') = currentScore (scoreManager e) /\
    highScore (scoreManager e') = highScore (scoreManager e) /\
    foodEaten (scoreManager e') = foodEaten (scoreManager e) /\
    snakeLength (scoreManager e') = Z.of_nat (length (segments moved)) /\
    emitted w' = emitted w ++ [score_update sd; snake_move p].
Proof.
  intros Hplay Hmove Hhead Hin Hself Hfood Hne.
  destruct (move_normal_inv _ _ _ Hmove) as (head & rest & Hs & ->).
  destruct (getHeadPosition_inv _ _ _ Hhead) as (first & body & Hmoved & <-).
  set (moved := moved_snake (snake e) head rest) in *.
  set (e1 := GameEngine.set_snake moved e).
  unfold GameEngine.update.
  erewrite bind_run by apply this_run.
  rewrite decide_False by (intros Hn; by apply Hn).
  erewrite bind_run by (by apply on_snake_move_cons).
  fold moved. fold e1.
  erewrite bind_run
    by (by apply (checkCollisions_clear e1 w first body Hmoved Hin Hself)).
  erewrite bind_run
    by (eapply (checkFoodConsumption_miss e1 w first body q Hmoved Hfood);
        congruence).
  destruct (updateScore_run e1 w) as (t & w3 & Hscore & Hev3).
  erewrite bind_run by exact Hscore.
  erewrite bind_run
    by (eapply (on_snake_getHeadPosition_cons _ _ first body); exact Hmoved).
  eexists _, _, _. split; [reflexivity|].
  split; [exact Hplay|]. do 2 (split; [reflexivity|]).
  split; [rewrite Hs; apply moved_segments_length|].
  do 4 (split; [reflexivity|]).
  cbn [emitted set_emitted]. rewrite Hev3, <- app_assoc. reflexivity.
Qed.

Lemma plain_tick_witness :
  gameState cruising_engine = PLAYING /\
  food_position (food cruising_engine) = Some (mkPosition 0 0) /\
  exists e' w' sd,
    GameEngine.update 100 cruising_engine example_world = (Normal tt, e', w') /\
    gameState e' = PLAYING /\
    emitted w' = emitted example_world ++ [score_update sd; snake_move (mkPosition 6 5)].
Proof.
  split; [reflexivity|]. split; [reflexivity|].
  destruct (plain_tick cruising_engine example_world 100
              (moved_snake example_snake (mkSegment (mkPosition 5 5) true)
                 [mkSegment (mkPosition 4 5) false; mkSegment (mkPosition 3 5) false])
              (mkPosition 6 5) (mkPosition 0 0))
    as (e' & w' & sd & Hrun & Hstate & _ & _ & _ & _ & _ & _ & _ & Hev);
    try reflexivity; [discriminate|].
  exists e', w', sd. split; [exact Hrun|]. split; [exact Hstate|exact Hev].
Defined.

Lemma on_scoreManager_addPoints_run (e : GameEngine) (w : World) (points : Z) :
  GameEngine.on_scoreManager (ScoreManager.addPoints points) e w
  = (Normal tt,
     GameEngine.set_scoreManager
       (mkScoreManager (currentScore (scoreManager e) + points)
          (if decide (currentScore (scoreManager e) + points > highScore (scoreManager e))
           then currentScore (scoreManager e) + points
           else highScore (scoreManager e))
          (snakeLength (scoreManager e)) (foodEaten (scoreManager e))
          (gameTime (scoreManager e)) (gameStartTime (scoreManager e))
          (storage (scoreManager e))) e, w).
Proof.
  unfold GameEngine.on_scoreManager, on_field. by rewrite addPoints_run.
Qed.

Lemma grow_positions (s : Snake) (w : World) head rest :
  segments s = head :: rest ->
  exists grown,
    Snake.grow s w = (Normal tt, grown, w) /\
    segments grown = segments s ++ [mkSegment (position (List.last rest head)) false] /\
    snake_config grown = snake_config s /\ direction grown = direction s /\
    nextDirection grown = nextDirection s.
Proof.
  intros Hs. eexists. split; [by eapply grow_cons|]. done.
Qed.

Lemma checkFoodConsumption_eat (e : GameEngine) (w : World) head rest :
  segments (snake e) = head :: rest ->
  food_position (food e) = Some (position head) ->
  exists e2 w2,
    GameEngine.checkFoodConsumption e w = GameEngine.spawnNewFood e2 w2 /\
    snake e2 = Snake.set_segments
                 (segments (snake e) ++ [mkSegment (position (List.last rest head)) false])
                 (snake e) /\
    food e2 = food e /\ gameBoard e2 = gameBoard e /\ gameState e2 = gameState e /\
    currentScore (scoreManager e2)
    = currentScore (scoreManager e) + food_points (food e) /\
    highScore (scoreManager e2)
    = Z.max (highScore (scoreManager e))
        (currentScore (scoreManager e) + food_points (food e)) /\
    foodEaten (scoreManager e2) = foodEaten (scoreManager e) + 1 /\
    emitted w2
    = emitted w ++
      [food_eaten (food e) (currentScore (scoreManager e) + food_points (food e))].
Proof.
  intros Hs Hfood. unfold GameEngine.checkFoodConsumption.
  erewrite bind_run by (by eapply on_snake_getHeadPosition_cons).
  erewrite bind_run by apply on_food_getPosition.
  rewrite Hfood, (proj2 (equals_true (position head) (position head)) eq_refl).
  erewrite bind_run by (by eapply on_snake_grow_cons).
  erewrite bind_run by apply on_food_getPoints.
  erewrite bind_run by apply on_scoreManager_addPoints_run.
  erewrite bind_run by reflexivity.
  erewrite bind_run by apply on_snake_getLength.
  erewrite bind_run by reflexivity.
  erewrite bind_run by apply this_run.
  erewrite bind_run by apply on_scoreManager_getCurrentScore.
  erewrite bind_run by reflexivity.
  eexists _, _. split; [reflexivity|].
  do 5 (split; [reflexivity|]).
  split; [|split; reflexivity].
  cbn. case_decide; lia.
Qed.

(** X6: a tick of a playing engine whose moved snake is on the board, off
    itself and with its head on the food returns; the snake has grown by a
    copy of its tail (one segment more than before the tick), the score is
    raised by the food's points (the high score follows when passed), the
    food counter by one, the length statistic is the new length, and the
    first notification is the eaten food with the new score.  When a cell
    is free the engine stays PLAYING with new food on a free cell, off the
    grown snake; when none is free the engine ends in GAME_OVER with the
    eaten food still in place. *)
Theorem eating_tick (e : GameEngine) (w : World) (deltaTime : Q) (moved : Snake)
    (p : Position) :
  gameState e = PLAYING ->
  Snake.move (snake e) w = (Normal tt, moved, w) ->
  Snake.getHeadPosition moved w = (Normal p, moved, w) ->
  GameBoard.isOutOfBounds (gameBoard e) p = false ->
  Snake.hasSelfCollision moved w = (Normal false, moved, w) ->
  food_position (food e) = Some p ->
  exists e' w' grown evs,
    GameEngine.update deltaTime e w = (Normal tt, e', w') /\
    Snake.grow moved w = (Normal tt, grown, w) /\
    snake e' = grown /\
    length (segments grown) = Datatypes.S (length (segments (snake e))) /\
    currentScore (scoreManager e')
    = currentScore (scoreManager e) + food_points (food e) /\
    highScore (scoreManager e')
    = Z.max (highScore (scoreManager e))
        (currentScore (scoreManager e) + food_points (food e)) /\
    foodEaten (scoreManager e') = foodEaten (scoreManager e) + 1 /\
    snakeLength (scoreManager e') = Z.of_nat (length (segments grown)) /\
    emitted w'
    = emitted w ++
      food_eaten (food e) (currentScore (scoreManager e) + food_points (food e)) :: evs /\
    (if decide (GameBoard.getEmptyPositionsExcludingSnake (gameBoard e)
                  (segments grown) = [])
     then gameState e' = GAME_OVER /\ food e' = food e
     else gameState e' = PLAYING /\
          exists p', food_position (food e') = Some p' /\
                     GameBoard.isOutOfBounds (gameBoard e) p' = false /\
                     p' ∉ position <$> segments grown).
Proof.
  intros Hplay Hmove Hhead Hin Hself Hfood.
  destruct (move_normal_inv _ _ _ Hmove) as (head & rest & Hs & ->).
  destruct (getHeadPosition_inv _ _ _ Hhead) as (first & body & Hmoved & <-).
  set (moved := moved_snake (snake e) head rest) in *.
  set (e1 := GameEngine.set_snake moved e).
  destruct (grow_positions moved w first body Hmoved)
    as (grown & Hgrow & Hgrown & _).
  assert (Hgrown' : grown = Snake.set_segments
            (segments moved ++ [mkSegment (position (List.last body first)) false]) moved).
  { rewrite (grow_cons moved w first body Hmoved) in Hgrow. congruence. }
  assert (Hlen : length (segments grown) = Datatypes.S (length (segments (snake e)))).
  { rewrite Hgrown, length_app, Hs. unfold moved, moved_snake. cbn [segments].
    rewrite moved_segments_length. simpl. lia. }
  destruct (checkFoodConsumption_eat e1 w first body Hmoved Hfood)
    as (e2 & w2 & Heat & Hsnake2 & Hfood2 & Hboard2 & Hstate2 & Hcur2 & Hhigh2
        & Heaten2 & Hev2).
  change (snake e1) with moved in Hsnake2. rewrite <- Hgrown' in Hsnake2.
  change (food e1) with (food e) in *. change (gameBoard e1) with (gameBoard e) in *.
  change (scoreManager e1) with (scoreManager e) in *.
  change (gameState e1) with (gameState e) in *.
  assert (Hs2 : exists body2, segments grown = first :: body2).
  { exists (body ++ [mkSegment (position (List.last body first)) false]).
    by rewrite Hgrown, Hmoved. }
  destruct Hs2 as (body2 & Hs2).
  unfold GameEngine.update.
  erewrite bind_run by apply this_run.
  rewrite decide_False by (intros Hn; by apply Hn).
  erewrite bind_run by (by apply on_snake_move_cons).
  fold moved. fold e1.
  erewrite bind_run
    by (by apply (checkCollisions_clear e1 w first body Hmoved Hin Hself)).
  destruct (decide (GameBoard.getEmptyPositionsExcludingSnake (gameBoard e)
                      (segments grown) = [])) as [Hfull|Hfree].
  - destruct (gameOver_run e2 w2) as (w3 & Hover & Hev3).
    erewrite bind_run
      by (rewrite Heat, spawnNewFood_full by (by rewrite Hboard2, Hsnake2);
          exact Hover).
    destruct (updateScore_run (ended e2) w3) as (t & w4 & Hscore & Hev4).
    erewrite bind_run by exact Hscore.
    erewrite bind_run
      by (eapply (on_snake_getHeadPosition_cons _ _ first body2);
          cbn; rewrite Hsnake2; exact Hs2).
    eexists _, _, grown, _. split; [reflexivity|]. split; [exact Hgrow|].
    split; [exact Hsnake2|]. split; [exact Hlen|].
    split; [exact Hcur2|]. split; [exact Hhigh2|]. split; [exact Heaten2|].
    split; [cbn; by rewrite Hsnake2|].
    rewrite decide_True by exact Hfull.
    split; [|split; [reflexivity|exact Hfood2]].
    cbn [emitted set_emitted]. rewrite Hev4, Hev3, Hev2, <- !app_assoc. reflexivity.
  - assert (Hfree2 : GameBoard.getEmptyPositionsExcludingSnake (gameBoard e2)
                       (segments (snake e2)) <> []) by (by rewrite Hboard2, Hsnake2).
    destruct (spawnNewFood_free e2 w2 Hfree2)
      as (f & p' & w3 & Hspawn & Hf & Hp' & Hev3).
    erewrite bind_run by (rewrite Heat; exact Hspawn).
    destruct (updateScore_run (GameEngine.set_food f e2) w3)
      as (t & w4 & Hscore & Hev4).
    erewrite bind_run by exact Hscore.
    erewrite bind_run
      by (eapply (on_snake_getHeadPosition_cons _ _ first body2);
          cbn; rewrite Hsnake2; exact Hs2).
    eexists _, _, grown, _. split; [reflexivity|]. split; [exact Hgrow|].
    split; [exact Hsnake2|]. split; [exact Hlen|].
    split; [exact Hcur2|]. split; [exact Hhigh2|]. split; [exact Heaten2|].
    split; [cbn; by rewrite Hsnake2|].
    rewrite decide_False by exact Hfree.
    split.
    + cbn [emitted set_emitted]. rewrite Hev4, Hev3, Hev2, <- !app_assoc. reflexivity.
    + split; [cbn; by rewrite Hstate2|]. exists p'. split; [exact Hf|].
      rewrite Hboard2, Hsnake2 in Hp'. by apply free_cell_clear in Hp'.
Qed.


Lemma eating_tick_witness :
  gameState feeding_engine = PLAYING /\
  food_position (food feeding_engine) = Some (mkPosition 6 5) /\
  exists e' w' grown,
    GameEngine.update 100 feeding_engine example_world = (Normal tt, e', w') /\
    snake e' = grown /\ length (segments grown) = 4%nat /\
    currentScore (scoreManager e') = 10 /\ highScore (scoreManager e') = 10 /\
    foodEaten (scoreManager e') = 1.
Proof.
  split; [reflexivity|]. split; [reflexivity|].
  destruct (eating_tick feeding_engine example_world 100
              (moved_snake example_snake (mkSegment (mkPosition 5 5) true)
                 [mkSegment (mkPosition 4 5) false; mkSegment (mkPosition 3 5) false])
              (mkPosition 6 5))
    as (e' & w' & grown & evs & Hrun & _ & Hsnake & Hlen & Hcur & Hhigh & Heaten & _);
    try reflexivity.
  exists e', w', grown. split; [exact Hrun|]. split; [exact Hsnake|].
  split; [exact Hlen|]. split; [exact Hcur|]. split; [exact Hhigh|exact Heaten].
Defined.

(** ** Food that has no cell *)




(** ** Construction and reset *)

Lemma createInitialFood_exact (e : GameEngine) (w : World) :
  let free := GameBoard.getEmptyPositionsExcludingSnake (gameBoard e)
                (segments (snake e)) in
  GameEngine.createInitialFood e w
  = (Normal
       (Food.new (config e)
          (js_index free (random_index (randoms w (randoms_used w)) (length free)))
          (if negb (Qle_bool (specialFoodSpawnChance (config e))
                      (unit_value (randoms w (Datatypes.S (randoms_used w)))))
           then SPECIAL else REGULAR)),
     e, set_randoms_used (Datatypes.S (Datatypes.S (randoms_used w))) w).
Proof.
  intros free. unfold GameEngine.createInitialFood.
  erewrite bind_run by apply on_snake_getSegments.
  erewrite bind_run by apply this_run.
  erewrite bind_run by reflexivity.
  reflexivity.
Qed.

Lemma js_index_random_None {A} (l : list A) (r : UnitInterval) :
  js_index l (random_index r (length l)) = None <-> l = [].
Proof.
  split.
  - intros Hnone. destruct (decide (l = [])) as [|Hl]; [done|].
    destruct (random_pick_elem l r Hl) as (a & Ha & _). congruence.
  - intros ->. unfold js_index. case_decide; [|done]. apply lookup_nil.
Qed.

(** X8: the constructor returns, for every configuration, score manager and
    world: the engine is in MENU with the snake [new Snake(config)] builds,
    a board of the configured size, the score manager it was given, no
    frame handle and a zero update time; two random numbers are drawn, no
    notification is sent and localStorage is not touched.  The food is
    worth 25 or 10 points with its type; it has a position exactly when the
    board has a cell clear of the snake, and that position is such a
    cell. *)
Theorem constructor_result (cfg : GameConfig) (sm : ScoreManager) (w : World) :
  exists e w',
    GameEngine.new cfg sm tt w = (Normal e, tt, w') /\
    gameState e = MENU /\ config e = cfg /\ scoreManager e = sm /\
    gameBoard e = mkGameBoard (gridSize cfg) /\
    Snake.new cfg tt w = (Normal (snake e), tt, w) /\
    animationFrameId e = None /\ lastUpdateTime e = 0%Q /\
    w' = set_randoms_used (Datatypes.S (Datatypes.S (randoms_used w))) w /\
    food_points (food e) = Food.calculatePoints (food_type (food e)) /\
    (food_position (food e) = None <->
     GameBoard.getEmptyPositionsExcludingSnake (gameBoard e) (segments (snake e)) = []) /\
    (forall p, food_position (food e) = Some p ->
       p ∈ GameBoard.getEmptyPositionsExcludingSnake (gameBoard e) (segments (snake e))).
Proof.
  unfold GameEngine.new.
  erewrite bind_run by apply new_snake_run.
  unfold construct.
  erewrite bind_run by apply createInitialFood_exact.
  eexists _, _. split; [reflexivity|].
  do 8 (split; [reflexivity|]).
  split; [|split].
  - reflexivity.
  - apply js_index_random_None.
  - intros p. apply js_index_elem.
Qed.

Lemma initial_positions (c len : Z) (p : Position) :
  p ∈ position <$>
        ((fun i => mkSegment (mkPosition (c - i) c) (bool_decide (i = 0)))
           <$> seqZ 0 len)
  <-> y p = c /\ c - len < x p <= c.
Proof.
  rewrite <- list_fmap_compose, list_elem_of_fmap. split.
  - intros (i & -> & Hi%elem_of_seqZ). simpl. lia.
  - intros [Hy Hx]. exists (c - x p). split.
    + destruct p as [px py]. simpl in *. f_equal; lia.
    + apply elem_of_seqZ. lia.
Qed.

Lemma initial_free_cells (n len : Z) :
  GameBoard.getEmptyPositionsExcludingSnake (mkGameBoard n)
    ((fun i => mkSegment (mkPosition (n `div` 2 - i) (n `div` 2)) (bool_decide (i = 0)))
       <$> seqZ 0 len) = []
  <-> n <= 0 \/ (n = 1 /\ 1 <= len).
Proof.
  rewrite getEmptyPositionsExcludingSnake_filter. cbn [board_gridSize]. split.
  - intros Hnil.
    destruct (decide (n <= 0)) as [|Hn]; [by left|]. right.
    assert (Hfree : mkPosition 0 0 ∉
              filter (fun p => p ∉ position <$>
                        ((fun i => mkSegment (mkPosition (n `div` 2 - i) (n `div` 2))
                                     (bool_decide (i = 0))) <$> seqZ 0 len))
                (column_major_cells n))
      by (rewrite Hnil; apply not_elem_of_nil).
    rewrite list_elem_of_filter, elem_of_column_major_cells, initial_positions in Hfree.
    simpl in Hfree.
    destruct (decide (n = 1)) as [->|Hn1].
    + split; [done|]. destruct (decide (1 <= len)) as [|Hlen]; [done|].
      exfalso. apply Hfree. split; [|lia]. change (1 `div` 2) with 0. lia.
    + exfalso. apply Hfree. split; [|lia].
      assert (1 <= n `div` 2) by (apply Z.div_le_lower_bound; lia). lia.
  - intros [Hn|[-> Hlen]].
    + unfold column_major_cells. rewrite (seqZ_nil 0 n) by lia. done.
    + destruct (filter _ _) as [|p l] eqn:Hf; [done|]. exfalso.
      assert (Hp : p ∈ p :: l) by left. rewrite <- Hf in Hp.
      apply list_elem_of_filter in Hp as [Hfree Hp%elem_of_column_major_cells].
      apply Hfree, initial_positions. change (1 `div` 2) with 0. lia.
Qed.

(** X9: the food of a freshly constructed engine has no position exactly
    when the grid size is not positive, or is 1 with a snake of at least one
    segment; for every other configuration it lies on a cell of the board
    that is clear of the snake. *)
Theorem constructed_food_position (cfg : GameConfig) (sm : ScoreManager)
    (w : World) :
  exists e w',
    GameEngine.new cfg sm tt w = (Normal e, tt, w') /\
    (food_position (food e) = None <->
     gridSize cfg <= 0 \/ (gridSize cfg = 1 /\ 1 <= initialSnakeLength cfg)) /\
    (forall p, food_position (food e) = Some p ->
       GameBoard.isValidPosition (gameBoard e) p = true /\
       Snake.containsPosition p (snake e) w' = (Normal false, snake e, w')).
Proof.
  unfold GameEngine.new.
  erewrite bind_run by apply new_snake_run.
  unfold construct.
  erewrite bind_run by apply createInitialFood_exact.
  eexists _, _. split; [reflexivity|]. split.
  - cbn [food GameEngine.set_food food_position Food.new gameBoard snake segments].
    rewrite js_index_random_None. apply initial_free_cells.
  - intros p Hp. cbn in Hp. apply js_index_elem, free_cell_clear in Hp as [Hin Hoff].
    split.
    + unfold GameBoard.isValidPosition. cbn [gameBoard GameEngine.set_food].
      by rewrite Hin.
    + rewrite containsPosition_run.
      cbn [snake GameEngine.set_food segments].
      by rewrite (proj2 (existsb_equals_false p _) Hoff).
Qed.

Lemma cancelFrame_exact (e : GameEngine) (w : World) :
  GameEngine.cancelFrame e w =
  (Normal tt,
   GameEngine.set_animationFrameId (cleared_frame (animationFrameId e)) e,
   match animationFrameId e with
   | Some id =>
       if decide (id = 0) then w
       else set_frames (frames_requested w)
              (filter (fun i => i ≠ id) (frames_pending w)) w
   | None => w
   end).
Proof.
  unfold GameEngine.cancelFrame, cleared_frame, bind, this, ret. simpl.
  destruct (animationFrameId e) as [id|] eqn:Hid.
  - destruct (decide (id = 0)); [|reflexivity].
    destruct e; simpl in *. by rewrite Hid.
  - destruct e; simpl in *. by rewrite Hid.
Qed.

Lemma reset_full (e : GameEngine) (w : World) :
  exists e' w',
    GameEngine.reset e w = (Normal tt, e', w') /\
    (gameState e' = MENU /\
     snake e' = mkSnake (snake_config (snake e))
                  ((fun i => mkSegment
                               (mkPosition (gridSize (snake_config (snake e)) `div` 2 - i)
                                  (gridSize (snake_config (snake e)) `div` 2))
                               (bool_decide (i = 0)))
                     <$> seqZ 0 (initialSnakeLength (snake_config (snake e))))
                  RIGHT RIGHT /\
     scoreManager e' = mkScoreManager 0 (highScore (scoreManager e)) 3 0 0 0
                         (storage (scoreManager e)) /\
     animationFrameId e' = cleared_frame (animationFrameId e) /\
     config e' = config e /\ gameBoard e' = gameBoard e /\
     lastUpdateTime e' = lastUpdateTime e /\
     (forall p, food_position (food e') = Some p ->
        p ∈ GameBoard.getEmptyPositionsExcludingSnake (gameBoard e')
              (segments (snake e')))) /\
    (randoms w' = randoms w /\
     randoms_used w' = Datatypes.S (Datatypes.S (randoms_used w)) /\
     clock w' = clock w /\ clock_used w' = Datatypes.S (clock_used w) /\
     frame_ids w' = frame_ids w /\ frames_requested w' = frames_requested w /\
     (forall id, id ∈ frames_pending w' -> id ∈ frames_pending w) /\
     emitted w' = emitted w ++ [game_reset (clock w (clock_used w))] /\
     localStorage w' = localStorage w /\ storage_available w' = storage_available w /\
     dates w' = dates w /\ dates_used w' = dates_used w).
Proof.
  unfold GameEngine.reset.
  erewrite bind_run by reflexivity.
  erewrite bind_run by reflexivity.
  erewrite bind_run
    by (erewrite bind_run by apply createInitialFood_exact; reflexivity).
  erewrite bind_run by reflexivity.
  erewrite bind_run by apply cancelFrame_exact.
  erewrite bind_run by reflexivity.
  eexists _, _. split; [reflexivity|]. split.
  - do 7 (split; [reflexivity|]). intros p. apply js_index_elem.
  - cbn [animationFrameId GameEngine.set_gameState GameEngine.set_food
           GameEngine.set_scoreManager GameEngine.set_snake].
    destruct (animationFrameId e) as [id|]; [destruct (decide (id = 0))|];
      repeat (split; [reflexivity|]); try reflexivity;
      try (split; [by intros ?|]; by repeat split).
    split; [|by repeat split].
    intros id'. cbn. by intros [_ ?]%list_elem_of_filter.
Qed.

(** X10: [reset] returns from every engine and in every world.  The engine
    is in MENU with the snake [new Snake] builds for the snake's
    configuration; current score, food counter and game time are 0, the
    length statistic is 3 whatever the length of the new snake, the high
    score is kept; the pending frame is cancelled; configuration, board and
    update time are kept.  New food is drawn (two random numbers), on a
    cell clear of the new snake when it has a position.  The only
    notification is game:reset with the clock's reading, and localStorage
    is not touched. *)
Theorem reset_result (e : GameEngine) (w : World) :
  exists e' w' s0,
    GameEngine.reset e w = (Normal tt, e', w') /\
    gameState e' = MENU /\
    Snake.new (snake_config (snake e)) tt w = (Normal s0, tt, w) /\
    snake e' = s0 /\
    currentScore (scoreManager e') = 0 /\
    foodEaten (scoreManager e') = 0 /\
    gameTime (scoreManager e') = 0 /\
    snakeLength (scoreManager e') = 3 /\
    highScore (scoreManager e') = highScore (scoreManager e) /\
    animationFrameId e' = cleared_frame (animationFrameId e) /\
    config e' = config e /\ gameBoard e' = gameBoard e /\
    lastUpdateTime e' = lastUpdateTime e /\
    (forall p, food_position (food e') = Some p ->
       p ∈ GameBoard.getEmptyPositionsExcludingSnake (gameBoard e) (segments s0)) /\
    randoms_used w' = Datatypes.S (Datatypes.S (randoms_used w)) /\
    emitted w' = emitted w ++ [game_reset (clock w (clock_used w))] /\
    localStorage w' = localStorage w.
Proof.
  destruct (reset_full e w)
    as (e' & w' & Hrun
        & (Hstate & Hsnake & Hscore & Hframe & Hconfig & Hboard & Hlast & Hfood)
        & (_ & Hrandoms & _ & _ & _ & _ & _ & Hev & Hstore & _)).
  exists e', w', (snake e'). split; [exact Hrun|]. split; [exact Hstate|].
  split; [rewrite Hsnake; apply new_snake_run|]. split; [reflexivity|].
  rewrite Hscore. do 5 (split; [reflexivity|]).
  split; [exact Hframe|]. split; [exact Hconfig|]. split; [exact Hboard|].
  split; [exact Hlast|]. split; [by rewrite <- Hboard|].
  split; [exact Hrandoms|]. split; [exact Hev|exact Hstore].
Qed.

(** ** The game loop *)




(** X12: when the game speed or more has passed, the frame ticks with the
    elapsed time.  If the tick returns, in whatever state it leaves the
    engine (GAME_OVER included), the update time becomes the clock's
    reading and one more frame is requested and kept as the engine's
    handle; if the tick throws, the game loop throws with it in the state
    the tick left, without requesting a frame. *)
Theorem gameLoop_due (e : GameEngine) (w : World) :
  gameState e = PLAYING ->
  (gameSpeed (config e) <= clock w (clock_used w) - lastUpdateTime e)%Q ->
  let now := clock w (clock_used w) in
  let r := GameEngine.update (now - lastUpdateTime e)%Q e
             (set_clock_used (Datatypes.S (clock_used w)) w) in
  match completion_of r with
  | Normal _ =>
      GameEngine.gameLoop e w =
      (Normal tt,
       GameEngine.set_animationFrameId
         (Some (frame_ids (world_of r) (frames_requested (world_of r))))
         (GameEngine.set_lastUpdateTime now (state_of r)),
       set_frames (Datatypes.S (frames_requested (world_of r)))
         (frames_pending (world_of r)
          ++ [frame_ids (world_of r) (frames_requested (world_of r))])
         (world_of r))
  | Throw exn => GameEngine.gameLoop e w = (Throw exn, state_of r, world_of r)
  end.
Proof.
  intros Hplay Hdue now r. unfold GameEngine.gameLoop.
  erewrite bind_run by apply this_run.
  rewrite decide_False by (intros Hn; by apply Hn).
  erewrite bind_run by reflexivity.
  cbv zeta. fold now.
  apply Qle_bool_iff in Hdue. fold now in Hdue. rewrite Hdue.
  subst r. unfold completion_of, state_of, world_of.
  destruct (GameEngine.update (now - lastUpdateTime e)%Q e
              (set_clock_used (Datatypes.S (clock_used w)) w))
    as [[[[]|exn] e'] w'] eqn:Hupdate; simpl.
  - erewrite bind_run by (erewrite bind_run by exact Hupdate; reflexivity).
    reflexivity.
  - erewrite bind_throw by (erewrite bind_throw by exact Hupdate; reflexivity).
    reflexivity.
Qed.

Lemma gameLoop_due_witness :
  gameState near_wall_engine = PLAYING /\
  gameState (state_of (GameEngine.gameLoop near_wall_engine near_wall_world))
  = GAME_OVER /\
  is_Some (animationFrameId
             (state_of (GameEngine.gameLoop near_wall_engine near_wall_world))).
Proof.
  split; [vm_compute; reflexivity|].
  pose proof (gameLoop_due near_wall_engine near_wall_world) as Hloop.
  cbv zeta in Hloop.
  assert (Hdone : completion_of
            (GameEngine.update
               (clock near_wall_world (clock_used near_wall_world)
                - lastUpdateTime near_wall_engine)%Q near_wall_engine
               (set_clock_used (Datatypes.S (clock_used near_wall_world))
                  near_wall_world)) = Normal tt)
    by (vm_compute; reflexivity).
  rewrite Hdone in Hloop. rewrite Hloop.
  - split; [vm_compute; reflexivity|]. by eexists.
  - vm_compute; reflexivity.
  - vm_compute. discriminate.
Defined.

(** ** Starting a game *)



(** ** Storage *)

Lemma append_inj_l (p a b : string) : p +:+ a = p +:+ b -> a = b.
Proof.
  induction p as [|c p IH]; [done|]. simpl. intros [= Heq]. by apply IH.
Qed.


Lemma Storage_get_run {S} (st : Storage) (key : string) (s : S) (w : World) :
  Storage.get st key s w
  = (Normal (if storage_available w then localStorage w !! (prefix st +:+ key)
             else None), s, w).
Proof. reflexivity. Qed.




(** X16: [isAvailable] answers whether the browser grants access, and it is
    not a pure test: when access is granted, whatever was stored under the
    key test of this storage is gone afterwards, while every other item is
    kept. *)
Theorem isAvailable_erases_test_key {S} (st : Storage) (s : S) (w : World) :
  completion_of (Storage.isAvailable st s w) = Normal (storage_available w) /\
  state_of (Storage.isAvailable st s w) = s /\
  (storage_available w = true ->
   completion_of (Storage.get st "test" s (world_of (Storage.isAvailable st s w)))
   = Normal None) /\
  (forall k, k <> prefix st +:+ "test" ->
     localStorage (world_of (Storage.isAvailable st s w)) !! k = localStorage w !! k).
Proof.
  unfold Storage.isAvailable, bind, world_read, world_update, ret,
    completion_of, state_of, world_of.
  destruct (storage_available w) eqn:Hav; cbn [fst snd].
  - split; [done|]. split; [done|]. split.
    + intros _. rewrite Storage_get_run. cbn. rewrite Hav.
      by rewrite lookup_delete_eq.
    + intros k Hk. cbn. by rewrite lookup_delete_ne.
  - split; [done|]. split; [done|]. split; [done|]. done.
Qed.

(** ** Score manager *)

Lemma score_keys_differ (st : Storage) :
  prefix st +:+ ScoreManager.HIGH_SCORE_KEY <> prefix st +:+ ScoreManager.STATS_KEY.
Proof. intros Heq%append_inj_l. discriminate Heq. Qed.

Lemma getTotalGames_exact (m : ScoreManager) (w : World) :
  ScoreManager.getTotalGames m w
  = (Normal (match (if storage_available w
                    then localStorage w !! (prefix (storage m) +:+ ScoreManager.STATS_KEY)
                    else None) with
             | Some (StoredStats _ _ totalGames) => totalGames
             | _ => 0
             end), m, w).
Proof.
  unfold ScoreManager.getTotalGames.
  erewrite bind_run by apply this_run.
  erewrite bind_run by apply Storage_get_run.
  by destruct (if storage_available w then _ else _) as [[?|? ? ?]|].
Qed.

Lemma saveHighScore_exact (m : ScoreManager) (w : World) :
  ScoreManager.saveHighScore m w
  = (Normal tt, m,
     let w1 := set_dates_used (Datatypes.S (dates_used w)) w in
     if storage_available w then
       set_localStorage
         (<[prefix (storage m) +:+ ScoreManager.STATS_KEY :=
              StoredStats (highScore m) (dates w (dates_used w))
                (match localStorage w !! (prefix (storage m) +:+ ScoreManager.STATS_KEY) with
                 | Some (StoredStats _ _ totalGames) => totalGames
                 | _ => 0
                 end + 1)]>
            (<[prefix (storage m) +:+ ScoreManager.HIGH_SCORE_KEY :=
                 StoredNumber (highScore m)]> (localStorage w))) w1
     else w1).
Proof.
  unfold ScoreManager.saveHighScore, ScoreManager.saveGameStats.
  erewrite bind_run by apply this_run.
  erewrite bind_run by reflexivity.
  erewrite bind_run by apply this_run.
  erewrite bind_run by reflexivity.
  erewrite bind_run by apply getTotalGames_exact.
  unfold Storage.set, world_update. cbv zeta.
  destruct (storage_available w) eqn:Hav;
    cbn [storage_available localStorage set_localStorage set_dates_used dates
           dates_used];
    rewrite ?Hav; cbn [storage_available localStorage set_localStorage set_dates_used
                         dates dates_used]; rewrite ?Hav; [|reflexivity].
  rewrite lookup_insert_ne by apply score_keys_differ.
  reflexivity.
Qed.

Lemma new_scoreManager_exact {S} (st : Storage) (s : S) (w : World) :
  ScoreManager.new st s w
  = (Normal
       (mkScoreManager 0
          (match (if storage_available w
                  then localStorage w !! (prefix st +:+ ScoreManager.HIGH_SCORE_KEY)
                  else None) with
           | Some (StoredNumber n) => Z.max 0 n
           | _ => 0
           end) 3 0 0 0 st), s, w).
Proof.
  unfold ScoreManager.new, construct, ScoreManager.loadHighScore.
  erewrite bind_run by apply this_run.
  erewrite bind_run by apply Storage_get_run.
  cbn [storage highScore].
  destruct (if storage_available w then _ else _) as [[n|? ? ?]|]; try reflexivity.
  case_decide.
  - cbn. do 3 f_equal. unfold ScoreManager.set_highScore. cbn. f_equal. lia.
  - cbn. do 3 f_equal. f_equal. lia.
Qed.

(** X17: what [saveHighScore] writes is what the next score manager on the
    same storage starts from: when the browser grants access, a manager
    constructed afterwards has the saved high score if it is positive and 0
    otherwise, and the count of games read back is one more than before the
    save.  When access is refused the new manager starts from 0 and the
    count reads 0.  Saving returns in both cases, sends no notification,
    reads the date once and leaves the manager unchanged. *)
Theorem saved_high_score_is_loaded (m : ScoreManager) (w : World) (n : Z) :
  ScoreManager.getTotalGames m w = (Normal n, m, w) ->
  exists w',
    ScoreManager.saveHighScore m w = (Normal tt, m, w') /\
    ScoreManager.new (storage m) tt w'
    = (Normal (mkScoreManager 0
                 (if storage_available w then Z.max 0 (highScore m) else 0)
                 3 0 0 0 (storage m)), tt, w') /\
    ScoreManager.getTotalGames m w'
    = (Normal (if storage_available w then n + 1 else 0), m, w') /\
    emitted w' = emitted w /\
    dates_used w' = Datatypes.S (dates_used w).
Proof.
  rewrite getTotalGames_exact. intros [= Hn].
  eexists. split; [apply saveHighScore_exact|].
  rewrite new_scoreManager_exact, getTotalGames_exact. cbv zeta.
  destruct (storage_available w) eqn:Hav.
  - cbn [storage_available localStorage set_localStorage set_dates_used emitted
           dates_used]. rewrite Hav.
    rewrite lookup_insert_ne by (apply not_eq_sym, score_keys_differ).
    rewrite !lookup_insert_eq. rewrite Hn. by repeat split.
  - cbn [storage_available localStorage set_localStorage set_dates_used emitted
           dates_used]. rewrite Hav. by repeat split.
Qed.

Lemma saved_high_score_is_loaded_witness :
  exists w',
    ScoreManager.saveHighScore example_scoreManager example_world
    = (Normal tt, example_scoreManager, w') /\
    ScoreManager.new (mkStorage "snake-game-") tt w'
    = (Normal (mkScoreManager 0 15 3 0 0 0 (mkStorage "snake-game-")), tt, w') /\
    ScoreManager.getTotalGames example_scoreManager w'
    = (Normal 1, example_scoreManager, w').
Proof.
  destruct (saved_high_score_is_loaded example_scoreManager example_world 0)
    as (w' & Hsave & Hnew & Htotal & _); [reflexivity|].
  exists w'. split; [exact Hsave|]. split; [exact Hnew|exact Htotal].
Defined.

Lemma score_call_high (c : ScoreCall) (m : ScoreManager) (w : World) :
  0 <= highScore m -> currentScore m <= highScore m ->
  completion_of (score_call c m w) = Normal tt /\
  highScore m <= highScore (state_of (score_call c m w)) /\
  currentScore (state_of (score_call c m w))
  <= highScore (state_of (score_call c m w)).
Proof.
  intros Hhigh Hcur. destruct c; cbn [score_call].
  - rewrite addPoints_run. unfold completion_of, state_of. cbn.
    case_decide; cbn; split; try done; lia.
  - rewrite resetScore_run. unfold completion_of, state_of. cbn. split; [done|]. lia.
  - unfold completion_of, state_of. cbn. split; [done|]. lia.
  - unfold completion_of, state_of. cbn. split; [done|]. lia.
  - unfold completion_of, state_of. cbn. split; [done|]. lia.
  - unfold ScoreManager.updateTimer, completion_of, state_of, bind, this.
    destruct (Qlt_le_dec 0 (gameStartTime m)); cbn; (split; [done|]); lia.
  - unfold completion_of, state_of. cbn. split; [done|]. lia.
  - rewrite saveHighScore_exact. unfold completion_of, state_of. cbn.
    split; [done|]. lia.
Qed.

Lemma score_reachable_high (m : ScoreManager) :
  score_reachable m -> 0 <= highScore m /\ currentScore m <= highScore m.
Proof.
  induction 1 as [st w w' m Hnew|m c w _ [Hhigh Hcur]].
  - rewrite new_scoreManager_exact in Hnew. injection Hnew as <- _. cbn.
    destruct (if storage_available w then _ else _) as [[n|? ? ?]|]; lia.
  - destruct (score_call_high c m w Hhigh Hcur) as (_ & Hmono & Hle).
    split; [lia|exact Hle].
Qed.

(** X18: for every score manager reached from its constructor by calls of
    its methods, in any worlds: the high score is not negative and the
    current score does not exceed it; and no method throws or lowers the
    high score. *)
Theorem high_score_bounds (m : ScoreManager) :
  score_reachable m ->
  0 <= highScore m /\ currentScore m <= highScore m /\
  forall c w,
    completion_of (score_call c m w) = Normal tt /\
    highScore m <= highScore (state_of (score_call c m w)).
Proof.
  intros [Hhigh Hcur]%score_reachable_high.
  split; [exact Hhigh|]. split; [exact Hcur|].
  intros c w. destruct (score_call_high c m w Hhigh Hcur) as (Hret & Hmono & _).
  by split.
Qed.

Lemma high_score_bounds_witness :
  0 <= highScore
         (state_of (score_call (SAddPoints 10)
                      (mkScoreManager 0 0 3 0 0 0 (mkStorage "snake-game-"))
                      example_world)) /\
  currentScore
    (state_of (score_call (SAddPoints 10)
                 (mkScoreManager 0 0 3 0 0 0 (mkStorage "snake-game-"))
                 example_world))
  <= highScore
       (state_of (score_call (SAddPoints 10)
                    (mkScoreManager 0 0 3 0 0 0 (mkStorage "snake-game-"))
                    example_world)).
Proof.
  destruct (high_score_bounds
              (state_of (score_call (SAddPoints 10)
                           (mkScoreManager 0 0 3 0 0 0 (mkStorage "snake-game-"))
                           example_world)))
    as (Hhigh & Hcur & _).
  - apply score_reachable_call.
    by apply (score_reachable_new (mkStorage "snake-game-") example_world example_world).
  - split; [exact Hhigh|exact Hcur].
Defined.

(** ** Snake *)

Lemma opposites_neq (d : Direction) : d <> Snake.opposites d.
Proof. by destruct d. Qed.

Lemma move_direction (s : Snake) (w : World) :
  direction (state_of (Snake.move s w)) = nextDirection s /\
  nextDirection (state_of (Snake.move s w)) = nextDirection s.
Proof.
  destruct (segments s) as [|head rest] eqn:Hs.
  - by rewrite (move_nil s w Hs).
  - by rewrite (move_cons s w head rest Hs).
Qed.

Lemma grow_direction (s : Snake) (w : World) :
  direction (state_of (Snake.grow s w)) = direction s /\
  nextDirection (state_of (Snake.grow s w)) = nextDirection s.
Proof.
  destruct (segments s) as [|head rest] eqn:Hs.
  - by rewrite (grow_nil s w Hs).
  - by rewrite (grow_cons s w head rest Hs).
Qed.

Lemma snake_call_pending (c : SnakeCall) (s : Snake) (w : World) :
  nextDirection s <> Snake.opposites (direction s) ->
  nextDirection (state_of (snake_call c s w))
  <> Snake.opposites (direction (state_of (snake_call c s w))).
Proof.
  intros Hok. destruct c as [| | |d]; cbn [snake_call].
  - destruct (move_direction s w) as [-> ->]. apply opposites_neq.
  - by destruct (grow_direction s w) as [-> ->].
  - unfold Snake.reset, bind, assign. rewrite initializeSnake_run.
    unfold state_of. cbn. discriminate.
  - rewrite changeDirection_run. unfold state_of. cbn [fst snd].
    case_bool_decide as Hd; [exact Hok|]. exact Hd.
Qed.

Lemma snake_reachable_pending (cfg : GameConfig) (s : Snake) :
  snake_reachable cfg s -> nextDirection s <> Snake.opposites (direction s).
Proof.
  induction 1 as [w w' s Hnew|s c w _ IH].
  - rewrite new_snake_run in Hnew. injection Hnew as <- _. cbn. discriminate.
  - by apply snake_call_pending.
Qed.

(** X19: a snake never reverses.  For every snake reached from its
    constructor by moves, growth, resets and direction requests, the
    pending direction is not the opposite of the current one, so the
    direction a move takes is never the opposite of the direction of the
    move before, however many requests were made in between. *)
Theorem snake_never_reverses (cfg : GameConfig) (s : Snake) (w : World) :
  snake_reachable cfg s ->
  nextDirection s <> Snake.opposites (direction s) /\
  direction (state_of (Snake.move s w)) <> Snake.opposites (direction s).
Proof.
  intros Hok%snake_reachable_pending. split; [exact Hok|].
  by destruct (move_direction s w) as [-> _].
Qed.

Lemma snake_never_reverses_witness :
  direction (state_of (Snake.move turned_snake example_world))
  <> Snake.opposites (direction turned_snake).
Proof.
  apply (snake_never_reverses example_config turned_snake example_world).
  exact turned_snake_reachable.
Defined.

Lemma hasSelfCollision_run (s : Snake) (w : World) head rest :
  segments s = head :: rest ->
  Snake.hasSelfCollision s w
  = (Normal (existsb (fun segment => Position.equals (position segment) (position head))
               rest), s, w).
Proof.
  intros Hs. unfold Snake.hasSelfCollision, bind, this, ret. by rewrite Hs.
Qed.

(** X20: the snake [new Snake(config)] builds, for every configuration: it
    has as many segments as the configured initial length (none when that
    is not positive), segment number i lies i cells to the left of the
    centre cell of the board, in the centre row; the head, when there is
    one, is on the cell [getCenterPosition] gives; no two segments share a
    cell, so the snake does not collide with itself; it heads right. *)
Theorem initial_snake_layout (cfg : GameConfig) (w : World) :
  exists s,
    Snake.new cfg tt w = (Normal s, tt, w) /\
    length (segments s) = Z.to_nat (initialSnakeLength cfg) /\
    (forall i seg, segments s !! i = Some seg ->
       position seg
       = mkPosition (gridSize cfg `div` 2 - Z.of_nat i) (gridSize cfg `div` 2)) /\
    (forall seg, segments s !! 0%nat = Some seg ->
       position seg = GameBoard.getCenterPosition (mkGameBoard (gridSize cfg))) /\
    NoDup (position <$> segments s) /\
    Snake.hasSelfCollision s w = (Normal false, s, w) /\
    direction s = RIGHT /\ nextDirection s = RIGHT.
Proof.
  eexists. split; [apply new_snake_run|]. cbn [segments direction nextDirection].
  set (c := gridSize cfg `div` 2).
  assert (Hpos : forall i seg,
            ((fun i => mkSegment (mkPosition (c - i) c) (bool_decide (i = 0)))
               <$> seqZ 0 (initialSnakeLength cfg)) !! i = Some seg ->
            position seg = mkPosition (c - Z.of_nat i) c).
  { intros i seg. rewrite list_lookup_fmap.
    destruct (seqZ 0 (initialSnakeLength cfg) !! i) as [j|] eqn:Hj; [|done].
    apply lookup_seqZ in Hj as [-> _]. intros [= <-]. cbn. done. }
  assert (Hnodup : NoDup (position <$>
            ((fun i => mkSegment (mkPosition (c - i) c) (bool_decide (i = 0)))
               <$> seqZ 0 (initialSnakeLength cfg)))).
  { rewrite <- list_fmap_compose. apply NoDup_fmap_2_strong; [|apply NoDup_seqZ].
    intros i j _ _ [= Hij]. lia. }
  split; [by rewrite length_fmap, length_seqZ|].
  split; [exact Hpos|].
  split.
  { intros seg Hseg. rewrite (Hpos 0%nat seg Hseg).
    unfold GameBoard.getCenterPosition. cbn. fold c. f_equal. lia. }
  split; [exact Hnodup|].
  split; [|done].
  unfold Snake.hasSelfCollision, bind, this, ret. cbn [segments].
  destruct (_ <$> seqZ 0 (initialSnakeLength cfg)) as [|head rest]; [done|].
  change (drop 1 (head :: rest)) with rest. cbn [lookup list_lookup].
  rewrite (proj2 (existsb_equals_false (position head) rest)); [done|].
  rewrite fmap_cons in Hnodup. by apply NoDup_cons in Hnodup as [Hhead _].
Qed.

(** X21: [reset] on any snake, whatever it has gone through, returns and
    leaves exactly the snake the constructor builds for the snake's
    configuration. *)
Theorem reset_restores_constructed (s : Snake) (w : World) :
  exists s0,
    Snake.new (snake_config s) tt w = (Normal s0, tt, w) /\
    Snake.reset s w = (Normal tt, s0, w).
Proof.
  eexists. split; [apply new_snake_run|].
  unfold Snake.reset, bind, assign. by rewrite initializeSnake_run.
Qed.

Lemma initial_segments_on_board (n len : Z) :
  Forall (fun seg => GameBoard.isValidPosition (mkGameBoard n) (position seg) = true)
    ((fun i => mkSegment (mkPosition (n `div` 2 - i) (n `div` 2)) (bool_decide (i = 0)))
       <$> seqZ 0 len)
  <-> len <= 0 \/ (1 <= n /\ len - 1 <= n `div` 2).
Proof.
  set (c := n `div` 2).
  assert (Hvalid : forall i,
            GameBoard.isValidPosition (mkGameBoard n) (mkPosition (c - i) c)
            = true <-> 0 <= c - i < n /\ 0 <= c < n).
  { intros i. unfold GameBoard.isValidPosition, GameBoard.isOutOfBounds.
    cbn [x y board_gridSize]. rewrite negb_true_iff, !orb_false_iff.
    rewrite !bool_decide_eq_false. lia. }
  rewrite Forall_fmap, Forall_forall. split.
  - intros Hall. destruct (decide (len <= 0)) as [|Hlen]; [by left|].
    right.
    assert (H0 := Hall 0). assert (Hl := Hall (len - 1)).
    cbn in H0, Hl. rewrite Hvalid in H0, Hl.
    rewrite elem_of_seqZ in H0. rewrite elem_of_seqZ in Hl. lia.
  - intros Hfit i Hi%elem_of_seqZ. cbn. apply Hvalid.
    destruct Hfit as [?|[Hn Hl]]; [lia|].
    assert (0 <= c) by (apply Z.div_pos; lia).
    assert (c < n) by (apply Z.div_lt_upper_bound; lia).
    lia.
Qed.

(** X22: the constructor does not check that the snake fits: every segment
    of the new snake lies on the board exactly when the initial length is
    not positive, or the grid has at least one cell per side and the
    length less one is at most half the grid size (rounded down) - with
    gridSize 3 and length 3 the tail starts off the board. *)
Theorem initial_snake_on_board (cfg : GameConfig) (w : World) :
  exists s,
    Snake.new cfg tt w = (Normal s, tt, w) /\
    (Forall (fun seg => GameBoard.isValidPosition (mkGameBoard (gridSize cfg))
                          (position seg) = true) (segments s)
     <-> initialSnakeLength cfg <= 0 \/
         (1 <= gridSize cfg /\ initialSnakeLength cfg - 1 <= gridSize cfg `div` 2)).
Proof.
  eexists. split; [apply new_snake_run|]. apply initial_segments_on_board.
Qed.

(** X23: [grow] copies the tail onto its own cell.  On a snake of one
    segment the copy lies under the head, and [hasSelfCollision] answers
    true until the next move; on a longer snake the answer is what it was
    before the growth. *)
Theorem grow_and_self_collision (s : Snake) (w : World) head rest :
  segments s = head :: rest ->
  exists grown,
    Snake.grow s w = (Normal tt, grown, w) /\
    Snake.hasSelfCollision grown w
    = (Normal (match rest with
               | [] => true
               | _ :: _ =>
                   existsb (fun segment =>
                              Position.equals (position segment) (position head)) rest
               end), grown, w) /\
    Snake.hasSelfCollision s w
    = (Normal (existsb (fun segment =>
                          Position.equals (position segment) (position head)) rest),
       s, w).
Proof.
  intros Hs. eexists. split; [by apply grow_cons|].
  split; [|by apply hasSelfCollision_run].
  erewrite hasSelfCollision_run; [|cbn [segments Snake.set_segments]; by rewrite Hs].
  rewrite existsb_app. cbn [existsb]. rewrite orb_false_r.
  destruct rest as [|second rest].
  - cbn [existsb orb List.last position].
    by rewrite (proj2 (equals_true (position head) (position head)) eq_refl).
  - destruct (existsb _ (second :: rest)) eqn:Hex; [done|]. cbn [orb position].
    rewrite (proj2 (equals_false _ _)); [done|]. intros Hlast.
    assert (Hin : position head ∈ position <$> second :: rest).
    { rewrite <- Hlast. apply list_elem_of_fmap. eexists. split; [reflexivity|].
      eapply list_elem_of_lookup_2. rewrite last_cons_default.
      apply lookup_last_cons. }
    apply existsb_equals_elem in Hin. congruence.
Qed.

Lemma grow_and_self_collision_witness :
  exists grown,
    Snake.grow (snake crowded_engine) example_world = (Normal tt, grown, example_world) /\
    Snake.hasSelfCollision grown example_world = (Normal true, grown, example_world).
Proof.
  destruct (grow_and_self_collision (snake crowded_engine) example_world
              (mkSegment (mkPosition 0 0) true) [])
    as (grown & Hgrow & Hhit & _); [reflexivity|].
  exists grown. split; [exact Hgrow|exact Hhit].
Defined.

(** ** Board, positions and food *)

Lemma length_bind_const {A B} (f : A -> list B) (l : list A) (k : nat) :
  (forall a, length (f a) = k) -> length (l ≫= f) = (length l * k)%nat.
Proof.
  intros Hf. induction l as [|a l IH]; [done|].
  rewrite bind_cons, length_app, Hf, IH. simpl. lia.
Qed.

Lemma length_column_major_cells (n : Z) :
  length (column_major_cells n) = (Z.to_nat n * Z.to_nat n)%nat.
Proof.
  unfold column_major_cells.
  rewrite (length_bind_const _ _ (Z.to_nat n)), length_seqZ; [done|].
  intros x0. rewrite (length_bind_const _ _ 1%nat), length_seqZ; [lia|done].
Qed.

Lemma isValidPosition_range (b : GameBoard) (p : Position) :
  GameBoard.isValidPosition b p = true
  <-> 0 <= x p < board_gridSize b /\ 0 <= y p < board_gridSize b.
Proof.
  unfold GameBoard.isValidPosition, GameBoard.isOutOfBounds.
  rewrite negb_true_iff, !orb_false_iff, !bool_decide_eq_false. lia.
Qed.

(** X24: [getEmptyPositions] lists every cell of the board once: its length
    is the square of the grid size (0 when that is not positive), no cell
    is repeated, and a position is listed exactly when [isValidPosition]
    accepts it. *)
Theorem getEmptyPositions_all_cells (b : GameBoard) :
  length (GameBoard.getEmptyPositions b)
  = (Z.to_nat (board_gridSize b) * Z.to_nat (board_gridSize b))%nat /\
  NoDup (GameBoard.getEmptyPositions b) /\
  forall p, p ∈ GameBoard.getEmptyPositions b
            <-> GameBoard.isValidPosition b p = true.
Proof.
  rewrite getEmptyPositions_column_major.
  split; [apply length_column_major_cells|].
  split; [apply NoDup_column_major_cells|].
  intros p. by rewrite elem_of_column_major_cells, isValidPosition_range.
Qed.

(** X25: when the segments of the snake lie on the board, on cells of their
    own, the free cells are all the cells but one per segment: the length
    of [getEmptyPositionsExcludingSnake] and the number of segments add up
    to the square of the grid size. *)
Theorem free_cells_count (b : GameBoard) (segs : list SnakeSegment) :
  NoDup (position <$> segs) ->
  Forall (fun seg => GameBoard.isValidPosition b (position seg) = true) segs ->
  (length (GameBoard.getEmptyPositionsExcludingSnake b segs) + length segs
   = Z.to_nat (board_gridSize b) * Z.to_nat (board_gridSize b))%nat.
Proof.
  intros Hnodup Hvalid.
  rewrite getEmptyPositionsExcludingSnake_filter, <- length_column_major_cells.
  set (cells := column_major_cells (board_gridSize b)).
  set (P := fun p : Position => p ∉ position <$> segs).
  rewrite <- (filter_app_complement P cells) at 2.
  rewrite length_app. f_equal.
  rewrite <- (length_fmap position segs).
  apply Permutation_length, NoDup_Permutation.
  - exact Hnodup.
  - apply NoDup_filter, NoDup_column_major_cells.
  - intros p. rewrite list_elem_of_filter. unfold P, cells.
    rewrite elem_of_column_major_cells. split.
    + intros Hp. split; [by intros Hn|].
      apply list_elem_of_fmap in Hp as (seg & -> & Hseg).
      rewrite Forall_forall in Hvalid. by apply isValidPosition_range, Hvalid.
    + intros [Hp _]. by apply dec_stable.
Qed.

Lemma free_cells_count_witness :
  (length (GameBoard.getEmptyPositionsExcludingSnake (mkGameBoard 10)
             (segments example_snake)) + 3 = 100)%nat.
Proof.
  apply (free_cells_count (mkGameBoard 10) (segments example_snake)).
  - apply (@bool_decide_unpack _ (NoDup_dec _)). vm_compute. exact I.
  - repeat constructor.
Defined.

(** X26: [getRandomEmptyPosition] returns for every board and snake; the
    answer is null exactly when no cell is free, and then no random number
    is drawn; otherwise one number is drawn and the answer is a cell of the
    board that holds no segment. *)
Theorem getRandomEmptyPosition_result {S} (b : GameBoard)
    (segs : list SnakeSegment) (s : S) (w : World) :
  exists o w',
    GameBoard.getRandomEmptyPosition b segs s w = (Normal o, s, w') /\
    (o = None <-> GameBoard.getEmptyPositionsExcludingSnake b segs = []) /\
    (forall p, o = Some p ->
       GameBoard.isValidPosition b p = true /\ p ∉ position <$> segs) /\
    w' = (if decide (GameBoard.getEmptyPositionsExcludingSnake b segs = [])
          then w else set_randoms_used (Datatypes.S (randoms_used w)) w).
Proof.
  unfold GameBoard.getRandomEmptyPosition. cbv zeta.
  destruct (decide (GameBoard.getEmptyPositionsExcludingSnake b segs = []))
    as [Hnil|Hfree].
  - rewrite Hnil. cbn [length]. rewrite decide_True by done.
    eexists _, _. split; [reflexivity|]. by repeat split.
  - rewrite decide_False by (by intros ?%length_zero_iff_nil).
    erewrite bind_run by reflexivity.
    eexists _, _. split; [reflexivity|]. split; [|split; [|done]].
    + rewrite js_index_random_None. done.
    + intros p Hp%js_index_elem%free_cell_clear. destruct Hp as [Hin Hoff].
      split; [|done]. unfold GameBoard.isValidPosition. by rewrite Hin.
Qed.

(** X27: [subtract] undoes [add] and [add] undoes [subtract]; a clone
    equals its original; and [isWithinBounds] with the bounds 0, 0, n, n is
    the board's [isValidPosition] for grid size n. *)
Theorem position_algebra (p q : Position) (n : Z) :
  Position.subtract (Position.add p q) q = p /\
  Position.add (Position.subtract p q) q = p /\
  Position.equals p (Position.clone p) = true /\
  Position.isWithinBounds p 0 0 n n = GameBoard.isValidPosition (mkGameBoard n) p.
Proof.
  destruct p as [px py], q as [qx qy].
  unfold Position.subtract, Position.add, Position.clone, Position.equals,
    Position.isWithinBounds, GameBoard.isValidPosition, GameBoard.isOutOfBounds.
  cbn [x y board_gridSize].
  split; [f_equal; lia|]. split; [f_equal; lia|].
  split; [by rewrite !bool_decide_eq_true_2|].
  repeat case_bool_decide; cbn; try reflexivity; lia.
Qed.

(** X28: [createRandomFood] returns after one random draw with food on the
    position it was given; the food is special exactly when the number
    drawn is below the configured chance, and is worth 25 points then and
    10 otherwise.  A chance of 0 or less never gives special food, a chance
    of 1 or more always does. *)
Theorem createRandomFood_result {S} (cfg : GameConfig) (pos : option Position)
    (s : S) (w : World) :
  exists f,
    Food.createRandomFood cfg pos s w
    = (Normal f, s, set_randoms_used (Datatypes.S (randoms_used w)) w) /\
    food_position f = pos /\
    (food_type f = SPECIAL
     <-> (unit_value (randoms w (randoms_used w)) < specialFoodSpawnChance cfg)%Q) /\
    food_points f = (if decide (food_type f = SPECIAL) then 25 else 10) /\
    ((specialFoodSpawnChance cfg <= 0)%Q -> food_type f = REGULAR) /\
    ((1 <= specialFoodSpawnChance cfg)%Q -> food_type f = SPECIAL).
Proof.
  unfold Food.createRandomFood.
  erewrite bind_run by reflexivity. cbv zeta.
  eexists. split; [reflexivity|]. split; [reflexivity|].
  cbn [food_type food_points Food.new].
  destruct (unit_value_range (randoms w (randoms_used w))) as [H0 H1].
  destruct (Qle_bool (specialFoodSpawnChance cfg)
              (unit_value (randoms w (randoms_used w)))) eqn:Hle; cbn [negb].
  - apply Qle_bool_iff in Hle. split; [|split; [done|split; [done|]]].
    + split; [done|]. intros Hlt. by apply Qlt_not_le in Hlt.
    + intros Hone. exfalso. apply (Qlt_not_le _ _ H1).
      eapply Qle_trans; [exact Hone|exact Hle].
  - assert (Hlt : (unit_value (randoms w (randoms_used w))
                   < specialFoodSpawnChance cfg)%Q).
    { apply Qnot_le_lt. intros Hn%Qle_bool_iff. congruence. }
    split; [done|]. split; [done|]. split; [|done].
    intros Hzero. exfalso. apply (Qlt_not_le _ _ Hlt).
    eapply Qle_trans; [exact Hzero|exact H0].
Qed.

(** ** Configuration *)


(** X30: a configuration [validateGameConfig] accepts gives a snake with a
    head, flagged as such, on a cell of the board. *)
Theorem validated_config_has_head (cfg : GameConfig) (w : World) :
  Config.validateGameConfig cfg = true ->
  exists s head rest,
    Snake.new cfg tt w = (Normal s, tt, w) /\
    segments s = head :: rest /\ isHead head = true /\
    GameBoard.isValidPosition (mkGameBoard (gridSize cfg)) (position head) = true.
Proof.
  unfold Config.validateGameConfig at 1.
  rewrite !andb_true_iff, !bool_decide_eq_true.
  intros ((((Hn & _) & Hlen) & _) & _).
  rewrite new_snake_run. rewrite seqZ_cons by lia. rewrite fmap_cons.
  eexists _, _, _. split; [reflexivity|]. split; [reflexivity|].
  split; [reflexivity|].
  cbn [position]. apply isValidPosition_range. cbn [x y board_gridSize].
  assert (0 <= gridSize cfg `div` 2) by (apply Z.div_pos; lia).
  assert (gridSize cfg `div` 2 < gridSize cfg) by (apply Z.div_lt_upper_bound; lia).
  lia.
Qed.

Lemma validated_config_has_head_witness :
  exists s head rest,
    Snake.new (Config.getConfigForDifficulty EASY) tt example_world
    = (Normal s, tt, example_world) /\
    segments s = head :: rest /\ isHead head = true /\
    GameBoard.isValidPosition (mkGameBoard 15) (position head) = true.
Proof.
  apply (validated_config_has_head (Config.getConfigForDifficulty EASY)
           example_world).
  reflexivity.
Defined.
